(** * The knowledge-graph memory store of [src/memory/index.ts]

    A shallow embedding of [KnowledgeGraphManager]: the line-oriented JSON
    codec ([loadGraph], [saveGraph]), the six mutating operations and the
    three read operations, and of the handler of the tool calls, followed
    by the properties of the store and of the handler.

    Text model.  A JavaScript string is embedded as a Rocq [string] whose
    characters are the code points 0 to 255; the file, read and written as
    UTF-8, is embedded as the text it holds.  A line of the file that
    names a character beyond them by an escape has no image here.

    Object model.  Entities, relations and the items of the batches are
    embedded as records of their declared interfaces; an object that
    carries other properties than its interface declares has no image
    here.  Logging through [console.error] is left out: it touches neither
    the graph nor the file.

    File model.  A state of the file tells what a read gives and what a
    write does: a write succeeds, or fails without touching the file, or
    fails and leaves a text of its own, since [fs.writeFile] truncates the
    file when it opens it.

    Handler model.  The handler casts the arguments of a request without
    a check; the embedding follows a call whose arguments fit the cast and
    gives the verdict [Unfit] to the others.  The resolution of the path of
    the file, the schemas of the tool list and the start of the server are
    left out.

    Where the embedding has no image of what the program meets, it stops
    with a verdict of its own, [Untyped], [Unread] or [Unfit], which stands
    for no exception of the program; the statements on what a call throws
    leave these out. *)

From Stdlib Require Import Ascii String NArith Lia.
From stdpp Require Import base decidable option list strings gmap.

Local Open Scope string_scope.
Local Open Scope list_scope.

(** ** String primitives of the JavaScript runtime *)

Module Text.

Definition code (c : ascii) : N := N_of_ascii c.

Definition newline : ascii := "010"%char.
Definition dquote : ascii := "034"%char.
Definition backslash : ascii := "092"%char.

(** [String.prototype.toLowerCase] on the code points 0 to 255: the
    letters A-Z, and the Latin-1 capitals U+00C0-U+00DE except the
    multiplication sign U+00D7, move up by 32. *)
Definition lower (c : ascii) : ascii :=
  let n := code c in
  if ((65 <=? n) && (n <=? 90))%N then ascii_of_N (n + 32)
  else if ((192 <=? n) && (n <=? 222) && negb (n =? 215))%N
       then ascii_of_N (n + 32)
  else c.

Fixpoint toLowerCase (s : string) : string :=
  match s with
  | EmptyString => EmptyString
  | String c r => String (lower c) (toLowerCase r)
  end.

(** [haystack.includes(needle)]: [needle] occurs as a substring. *)
Fixpoint includes (haystack needle : string) : bool :=
  String.prefix needle haystack ||
  match haystack with
  | EmptyString => false
  | String _ r => includes r needle
  end.

(** White space and line terminators stripped by [trim]. *)
Definition is_space (c : ascii) : bool :=
  let n := code c in
  (((9 <=? n) && (n <=? 13)) || (n =? 32) || (n =? 160))%N.

Fixpoint trimStart (s : string) : string :=
  match s with
  | String c r => if is_space c then trimStart r else s
  | EmptyString => EmptyString
  end.

Fixpoint trimEnd (s : string) : string :=
  match s with
  | String c r =>
      match trimEnd r with
      | EmptyString => if is_space c then EmptyString else String c EmptyString
      | r' => String c r'
      end
  | EmptyString => EmptyString
  end.

Definition trim (s : string) : string := trimEnd (trimStart s).

(** [data.split("\n")]: never the empty list; the empty text gives one
    empty line. *)
Fixpoint split (s : string) : list string :=
  match s with
  | EmptyString => [EmptyString]
  | String c r =>
      if Ascii.eqb c newline then EmptyString :: split r
      else match split r with
           | l :: ls => String c l :: ls
           | [] => [String c EmptyString]
           end
  end.

(** [parts.join(sep)]. *)
Fixpoint join (sep : string) (parts : list string) : string :=
  match parts with
  | [] => EmptyString
  | [p] => p
  | p :: ps => p +:+ sep +:+ join sep ps
  end.

End Text.

(** ** JSON values, [JSON.stringify] and [JSON.parse] *)

Module JSON.

#[local] Unset Elimination Schemes.

(** A number keeps the text of its literal: the store never computes
    with one.  An object keeps its members in the order of the text. *)
Inductive json : Type :=
| JNull
| JBool (b : bool)
| JNumber (literal : string)
| JString (s : string)
| JArray (items : list json)
| JObject (members : list (string * json)).

#[local] Set Elimination Schemes.

(** Property read [item.key]: of the members named [key] the last one
    wins; [None] stands for [undefined]. *)
Fixpoint get (key : string) (members : list (string * json)) : option json :=
  match members with
  | [] => None
  | (k, v) :: ms =>
      match get key ms with
      | Some v' => Some v'
      | None => if String.eqb k key then Some v else None
      end
  end.

Definition hexdigit (n : N) : ascii :=
  if (n <? 10)%N then ascii_of_N (48 + n) else ascii_of_N (87 + n).

(** One character of a quoted string, as [JSON.stringify] writes it. *)
Definition escape (c : ascii) : string :=
  let n := Text.code c in
  if (n =? 34)%N then String Text.backslash (String Text.dquote "")
  else if (n =? 92)%N then "\\"
  else if (n =? 8)%N then "\b"
  else if (n =? 12)%N then "\f"
  else if (n =? 10)%N then "\n"
  else if (n =? 13)%N then "\r"
  else if (n =? 9)%N then "\t"
  else if (n <? 32)%N
       then "\u00" +:+ String (hexdigit (n / 16)) (String (hexdigit (n mod 16)) "")
  else String c "".

Fixpoint escaped (s : string) : string :=
  match s with
  | EmptyString => EmptyString
  | String c r => escape c +:+ escaped r
  end.

Definition quote (s : string) : string :=
  String Text.dquote (escaped s +:+ String Text.dquote "").

(** [JSON.stringify(value)] without indentation. *)
Fixpoint stringify (v : json) : string :=
  match v with
  | JNull => "null"
  | JBool true => "true"
  | JBool false => "false"
  | JNumber literal => literal
  | JString s => quote s
  | JArray items => "[" +:+ Text.join "," (map stringify items) +:+ "]"
  | JObject members =>
      "{" +:+ Text.join "," (map (fun m => quote (fst m) +:+ ":" +:+ stringify (snd m)) members) +:+ "}"
  end.

(** *** The parser

    [parse] follows the JSON grammar by recursive descent.  The
    recursion of values inside arrays and objects runs on a fuel that
    [parse] sets from the length of the text.  [None] stands for the
    [SyntaxError] that [JSON.parse] throws, on a text that is not [wide].
    An escape above [\u00ff] names a character outside the text model:
    [parse_chars] gives no string for it, and [wide] tells the texts in
    which such an escape may stand, for the caller to set them apart. *)

Definition is_ws (c : ascii) : bool :=
  let n := Text.code c in
  ((n =? 32) || (n =? 9) || (n =? 10) || (n =? 13))%N.

Fixpoint skip_ws (s : string) : string :=
  match s with
  | String c r => if is_ws c then skip_ws r else s
  | EmptyString => EmptyString
  end.

Definition hexval (c : ascii) : option N :=
  let n := Text.code c in
  if ((48 <=? n) && (n <=? 57))%N then Some (n - 48)%N
  else if ((97 <=? n) && (n <=? 102))%N then Some (n - 87)%N
  else if ((65 <=? n) && (n <=? 70))%N then Some (n - 55)%N
  else None.

(** A backslash, [u] and four hexadecimal digits of which the first two
    are not both zero stand somewhere in the text. *)
Fixpoint wide (s : string) : bool :=
  match s with
  | EmptyString => false
  | String c r =>
      (if Ascii.eqb c Text.backslash then
         match r with
         | String e (String h1 (String h2 (String h3 (String h4 _)))) =>
             if Ascii.eqb e "u" then
               match hexval h1, hexval h2, hexval h3, hexval h4 with
               | Some a, Some b, Some _, Some _ => negb ((a =? 0) && (b =? 0))%N
               | _, _, _, _ => false
               end
             else false
         | _ => false
         end
       else false) || wide r
  end.

(** The character after a backslash, [u] apart. *)
Definition unescape (c : ascii) : option ascii :=
  if Ascii.eqb c Text.dquote then Some Text.dquote
  else if Ascii.eqb c Text.backslash then Some Text.backslash
  else if Ascii.eqb c "/" then Some "/"%char
  else if Ascii.eqb c "b" then Some "008"%char
  else if Ascii.eqb c "f" then Some "012"%char
  else if Ascii.eqb c "n" then Some "010"%char
  else if Ascii.eqb c "r" then Some "013"%char
  else if Ascii.eqb c "t" then Some "009"%char
  else None.

(** The characters of a string, from behind its opening quote up to
    and including its closing quote. *)
Fixpoint parse_chars (s : string) : option (string * string) :=
  match s with
  | EmptyString => None
  | String c r =>
      if Ascii.eqb c Text.dquote then Some (EmptyString, r)
      else if Ascii.eqb c Text.backslash then
        match r with
        | String e r1 =>
            if Ascii.eqb e "u" then
              match r1 with
              | String h1 (String h2 (String h3 (String h4 r2))) =>
                  match hexval h1, hexval h2, hexval h3, hexval h4 with
                  | Some a, Some b, Some c, Some d =>
                      let n := (a * 4096 + b * 256 + c * 16 + d)%N in
                      if (n <? 256)%N
                      then '(str, rest) ← parse_chars r2;
                           Some (String (ascii_of_N n) str, rest)
                      else None
                  | _, _, _, _ => None
                  end
              | _ => None
              end
            else
              ch ← unescape e;
              '(str, rest) ← parse_chars r1;
              Some (String ch str, rest)
        | EmptyString => None
        end
      else if (Text.code c <? 32)%N then None
      else '(str, rest) ← parse_chars r; Some (String c str, rest)
  end.

Definition is_digit (c : ascii) : bool :=
  let n := Text.code c in ((48 <=? n) && (n <=? 57))%N.

(** The longest prefix of digits, and what follows it. *)
Fixpoint digits (s : string) : string * string :=
  match s with
  | String c r =>
      if is_digit c then let '(d, rest) := digits r in (String c d, rest)
      else (EmptyString, s)
  | EmptyString => (EmptyString, EmptyString)
  end.

Definition some_digits (s : string) : option (string * string) :=
  match digits s with
  | (EmptyString, _) => None
  | (d, rest) => Some (d, rest)
  end.

Definition parse_int (s : string) : option (string * string) :=
  match s with
  | String c r =>
      if Ascii.eqb c "0" then Some ("0", r) else some_digits s
  | EmptyString => None
  end.

Definition parse_frac (s : string) : option (string * string) :=
  match s with
  | String c r =>
      if Ascii.eqb c "."
      then '(d, rest) ← some_digits r; Some (String c d, rest)
      else Some (EmptyString, s)
  | EmptyString => Some (EmptyString, s)
  end.

Definition parse_sign (s : string) : string * string :=
  match s with
  | String c r =>
      if Ascii.eqb c "+" || Ascii.eqb c "-" then (String c "", r)
      else (EmptyString, s)
  | EmptyString => (EmptyString, s)
  end.

Definition parse_exp (s : string) : option (string * string) :=
  match s with
  | String c r =>
      if Ascii.eqb c "e" || Ascii.eqb c "E"
      then let '(sign, r1) := parse_sign r in
           '(d, rest) ← some_digits r1; Some (String c (sign +:+ d), rest)
      else Some (EmptyString, s)
  | EmptyString => Some (EmptyString, s)
  end.

Definition parse_number (s : string) : option (json * string) :=
  let '(minus, r0) :=
    match s with
    | String c r => if Ascii.eqb c "-" then ("-", r) else ("", s)
    | EmptyString => ("", s)
    end in
  '(i, r1) ← parse_int r0;
  '(f, r2) ← parse_frac r1;
  '(e, r3) ← parse_exp r2;
  Some (JNumber (minus +:+ i +:+ f +:+ e), r3).

(** [s] without its prefix [p], when it has that prefix. *)
Fixpoint strip (p s : string) : option string :=
  match p, s with
  | EmptyString, _ => Some s
  | String a p', String b s' => if Ascii.eqb a b then strip p' s' else None
  | String _ _, EmptyString => None
  end.

Definition parse_literal (s : string) : option (json * string) :=
  match strip "null" s with
  | Some r => Some (JNull, r)
  | None =>
      match strip "true" s with
      | Some r => Some (JBool true, r)
      | None =>
          match strip "false" s with
          | Some r => Some (JBool false, r)
          | None => parse_number s
          end
      end
  end.

Fixpoint parse_value (fuel : nat) (s : string) : option (json * string) :=
  match fuel with
  | O => None
  | S fuel =>
      match skip_ws s with
      | String c r =>
          if Ascii.eqb c "{" then
            match skip_ws r with
            | String c' r' =>
                if Ascii.eqb c' "}" then Some (JObject [], r')
                else '(ms, rest) ← parse_members fuel r; Some (JObject ms, rest)
            | EmptyString => None
            end
          else if Ascii.eqb c "[" then
            match skip_ws r with
            | String c' r' =>
                if Ascii.eqb c' "]" then Some (JArray [], r')
                else '(vs, rest) ← parse_elements fuel r; Some (JArray vs, rest)
            | EmptyString => None
            end
          else if Ascii.eqb c Text.dquote then
            '(str, rest) ← parse_chars r; Some (JString str, rest)
          else parse_literal (String c r)
      | EmptyString => None
      end
  end
with parse_elements (fuel : nat) (s : string) : option (list json * string) :=
  match fuel with
  | O => None
  | S fuel =>
      '(v, r) ← parse_value fuel s;
      match skip_ws r with
      | String c r' =>
          if Ascii.eqb c "," then
            '(vs, rest) ← parse_elements fuel r'; Some (v :: vs, rest)
          else if Ascii.eqb c "]" then Some ([v], r')
          else None
      | EmptyString => None
      end
  end
with parse_members (fuel : nat) (s : string)
    : option (list (string * json) * string) :=
  match fuel with
  | O => None
  | S fuel =>
      match skip_ws s with
      | String q r =>
          if Ascii.eqb q Text.dquote then
            '(key, r1) ← parse_chars r;
            match skip_ws r1 with
            | String c r2 =>
                if Ascii.eqb c ":" then
                  '(v, r3) ← parse_value fuel r2;
                  match skip_ws r3 with
                  | String c' r4 =>
                      if Ascii.eqb c' "," then
                        '(ms, rest) ← parse_members fuel r4;
                        Some ((key, v) :: ms, rest)
                      else if Ascii.eqb c' "}" then Some ([(key, v)], r4)
                      else None
                  | EmptyString => None
                  end
                else None
            | EmptyString => None
            end
          else None
      | EmptyString => None
      end
  end.

(** [JSON.parse(text)]. *)
Definition parse (text : string) : option json :=
  match parse_value (S (String.length text)) text with
  | Some (v, rest) =>
      match skip_ws rest with
      | EmptyString => Some v
      | String _ _ => None
      end
  | None => None
  end.

End JSON.

(** ** Data model *)

Record Entity := {
  name : string;
  entityType : string;
  observations : list string
}.

Record Relation := {
  from : string;
  to : string;
  relationType : string
}.

Record KnowledgeGraph := {
  entities : list Entity;
  relations : list Relation
}.

(** Argument and result items of [addObservations] and the argument
    items of [deleteObservations], anonymous object types in the source. *)
Module Addition.
Record t := { entityName : string; contents : list string }.
End Addition.

Module Added.
Record t := { entityName : string; addedObservations : list string }.
End Added.

Module Deletion.
Record t := { entityName : string; observations : list string }.
End Deletion.

Definition emptyGraph : KnowledgeGraph := {| entities := []; relations := [] |}.

(** ** Exceptions, the file and the monad of the operations *)

Inductive error : Type :=
| SystemError (code : string)   (* a failure of [fs], with its [error.code] *)
| SyntaxError                   (* thrown by [JSON.parse] *)
| TypeError                     (* a property read on [null] *)
| NotFound (entityName : string) (* [new Error(`Entity with name ... not found`)] *)
| Untyped (item : JSON.json)    (* see [asEntity] *)
| Unread (line : string).       (* see [decodeLine] *)

(** The exceptions of the program, as against the verdicts of the
    embedding. *)
Definition genuine (e : error) : Prop :=
  match e with
  | Untyped _ | Unread _ => False
  | SystemError _ | SyntaxError | TypeError | NotFound _ => True
  end.

Inductive result (A : Type) : Type :=
| Returned (a : A)
| Thrown (e : error).
Arguments Returned {A} a.
Arguments Thrown {A} e.

#[global] Instance result_ret : MRet result := @Returned.
#[global] Instance result_bind : MBind result := fun A B f r =>
  match r with
  | Returned a => f a
  | Thrown e => Thrown e
  end.

(** The file at [MEMORY_FILE_PATH]: absent, holding a text, or failing
    every access with a system error of the given code.  A [Brittle] file
    is read as what it holds, [None] for an absent file, and fails every
    write with [code]: [fs.writeFile] opens the file truncating it, so
    the failed write leaves [torn], which may be what the file held, no
    text, or a part of the text to write. *)
Inductive store : Type :=
| Missing
| Stored (data : string)
| Failing (code : string)
| Brittle (held : option string) (code : string) (torn : option string).

(** An operation runs from a state of the file to a result and the state
    it leaves; a throw keeps what was written before it. *)
Definition M (A : Type) : Type := store -> result A * store.

#[global] Instance M_ret : MRet M := fun A a s => (Returned a, s).
#[global] Instance M_bind : MBind M := fun A B f m s =>
  match m s with
  | (Returned a, s') => f a s'
  | (Thrown e, s') => (Thrown e, s')
  end.

Definition throw {A : Type} (e : error) : M A := fun s => (Thrown e, s).

Definition lift {A : Type} (r : result A) : M A := fun s => (r, s).

(** [try { body } catch (error) { handler }]. *)
Definition try_catch {A : Type} (body : M A) (handler : error -> M A) : M A :=
  fun s =>
    match body s with
    | (Thrown e, s') => handler e s'
    | done => done
    end.

(** [fs.readFile(MEMORY_FILE_PATH, "utf-8")]. *)
Definition readFile : M string := fun s =>
  match s with
  | Missing => (Thrown (SystemError "ENOENT"), s)
  | Stored data => (Returned data, s)
  | Failing code => (Thrown (SystemError code), s)
  | Brittle None _ _ => (Thrown (SystemError "ENOENT"), s)
  | Brittle (Some data) _ _ => (Returned data, s)
  end.

(** [fs.writeFile(MEMORY_FILE_PATH, data)]. *)
Definition writeFile (data : string) : M unit := fun s =>
  match s with
  | Failing code => (Thrown (SystemError code), s)
  | Brittle _ code torn => (Thrown (SystemError code), Brittle torn code torn)
  | Missing | Stored _ => (Returned tt, Stored data)
  end.

(** ** The record codec: [saveGraph] and [loadGraph] *)

(** [{ type: "entity", ...e }] and [{ type: "relation", ...r }]: the
    discriminant, then the fields of the record in the order of the
    interface. *)
Definition entityRecord (e : Entity) : JSON.json :=
  JSON.JObject
    [("type", JSON.JString "entity");
     ("name", JSON.JString (name e));
     ("entityType", JSON.JString (entityType e));
     ("observations", JSON.JArray (map JSON.JString (observations e)))].

Definition relationRecord (r : Relation) : JSON.json :=
  JSON.JObject
    [("type", JSON.JString "relation");
     ("from", JSON.JString (from r));
     ("to", JSON.JString (to r));
     ("relationType", JSON.JString (relationType r))].

(** The text that [saveGraph] writes. *)
Definition encode (graph : KnowledgeGraph) : string :=
  let lines :=
    map (fun e => JSON.stringify (entityRecord e)) (entities graph) ++
    map (fun r => JSON.stringify (relationRecord r)) (relations graph) in
  Text.join (String Text.newline "") lines.

Definition saveGraph (graph : KnowledgeGraph) : M unit :=
  try_catch (writeFile (encode graph)) (fun error => throw error).

Definition asString (v : JSON.json) : option string :=
  match v with
  | JSON.JString s => Some s
  | _ => None
  end.

Definition field (key : string) (members : list (string * JSON.json)) : option string :=
  v ← JSON.get key members; asString v.

(** [item as Entity], [item as Relation].  The casts of the source are
    unchecked.  The embedding holds typed records, so an item that lacks a
    field of the interface, or holds it at another type, has no image
    here: the casts are partial, and [decodeLine] stops on such an item
    with [Untyped], which stands for no exception of the program. *)
Definition asEntity (item : JSON.json) : option Entity :=
  match item with
  | JSON.JObject members =>
      n ← field "name" members;
      t ← field "entityType" members;
      o ← JSON.get "observations" members;
      match o with
      | JSON.JArray items =>
          obs ← mapM asString items;
          Some {| name := n; entityType := t; observations := obs |}
      | _ => None
      end
  | _ => None
  end.

Definition asRelation (item : JSON.json) : option Relation :=
  match item with
  | JSON.JObject members =>
      f ← field "from" members;
      t ← field "to" members;
      k ← field "relationType" members;
      Some {| from := f; to := t; relationType := k |}
  | _ => None
  end.

(** [item.type]: a [TypeError] on [null], [undefined] on any other item
    without such a property. *)
Definition itemType (item : JSON.json) : result (option JSON.json) :=
  match item with
  | JSON.JNull => Thrown TypeError
  | JSON.JObject members => Returned (JSON.get "type" members)
  | _ => Returned None
  end.

(** [value === text], for a property read and a string. *)
Definition isString (value : option JSON.json) (text : string) : bool :=
  match value with
  | Some (JSON.JString s) => String.eqb s text
  | _ => false
  end.

Definition cast {A : Type} (as_ : JSON.json -> option A) (item : JSON.json) : result A :=
  match as_ item with
  | Some a => Returned a
  | None => Thrown (Untyped item)
  end.

(** The callback of [lines.reduce]: one line into the graph.  A line that
    the parser of the embedding refuses is one on which [JSON.parse]
    throws, unless an escape above [\u00ff] may stand in it: the embedding
    stops on such a line with [Unread], which stands for no exception of
    the program. *)
Definition decodeLine (graph : KnowledgeGraph) (line : string) : result KnowledgeGraph :=
  match JSON.parse line with
  | None => if JSON.wide line then Thrown (Unread line) else Thrown SyntaxError
  | Some item =>
      ty ← itemType item;
      graph ←
        (if isString ty "entity"
         then e ← cast asEntity item;
              mret {| entities := entities graph ++ [e];
                      relations := relations graph |}
         else mret graph);
      (if isString ty "relation"
       then r ← cast asRelation item;
            mret {| entities := entities graph;
                    relations := relations graph ++ [r] |}
       else mret graph)
  end.

(** [lines.reduce(callback, initial)] with a callback that may throw. *)
Fixpoint reduce {A B : Type} (callback : B -> A -> result B)
    (lines : list A) (acc : B) : result B :=
  match lines with
  | [] => Returned acc
  | line :: rest => acc' ← callback acc line; reduce callback rest acc'
  end.

(** The graph that [loadGraph] builds from the text of the file. *)
Definition decode (data : string) : result KnowledgeGraph :=
  let lines := filter (fun line => Text.trim line <> "") (Text.split data) in
  reduce decodeLine lines emptyGraph.

Definition loadGraph : M KnowledgeGraph :=
  try_catch
    (data ← readFile; lift (decode data))
    (fun error =>
       match error with
       | SystemError code =>
           if decide (code = "ENOENT") then mret emptyGraph else throw error
       | _ => throw error
       end).

(** ** The operations of [KnowledgeGraphManager] *)

Definition sameTriple (a b : Relation) : Prop :=
  from a = from b /\ to a = to b /\ relationType a = relationType b.

#[global] Instance sameTriple_dec (a b : Relation) : Decision (sameTriple a b).
Proof. unfold sameTriple. apply _. Defined.

Definition createEntities (candidates : list Entity) : M (list Entity) :=
  graph ← loadGraph;
  let newEntities :=
    filter (fun e => ~ Exists (fun existingEntity => name existingEntity = name e)
                              (entities graph)) candidates in
  let graph := {| entities := entities graph ++ newEntities;
                  relations := relations graph |} in
  _ ← saveGraph graph;
  mret newEntities.

Definition createRelations (candidates : list Relation) : M (list Relation) :=
  graph ← loadGraph;
  let newRelations :=
    filter (fun r => ~ Exists (fun existingRelation => sameTriple existingRelation r)
                              (relations graph)) candidates in
  let graph := {| entities := entities graph;
                  relations := relations graph ++ newRelations |} in
  _ ← saveGraph graph;
  mret newRelations.

(** The callback of [observations.map] in [addObservations].  [find]
    yields the first entity of that name; the [push] on its observation
    array is the update of that entity in place, here at its index. *)
Definition addObservation (ents : list Entity) (o : Addition.t)
    : result (Added.t * list Entity) :=
  match list_find (fun e => name e = Addition.entityName o) ents with
  | None => Thrown (NotFound (Addition.entityName o))
  | Some (i, entity) =>
      let newObservations :=
        filter (fun content => content ∉ observations entity) (Addition.contents o) in
      let entity' := {| name := name entity;
                        entityType := entityType entity;
                        observations := observations entity ++ newObservations |} in
      Returned ({| Added.entityName := Addition.entityName o;
                   Added.addedObservations := newObservations |},
                <[i := entity']> ents)
  end.

(** [observations.map(callback)]: the items in order, each on the
    entities as the items before it left them; the first throw ends it. *)
Fixpoint addAll (items : list Addition.t) (ents : list Entity)
    : result (list Added.t * list Entity) :=
  match items with
  | [] => Returned ([], ents)
  | o :: rest =>
      '(added, ents1) ← addObservation ents o;
      '(results, ents2) ← addAll rest ents1;
      Returned (added :: results, ents2)
  end.

Definition addObservations (items : list Addition.t) : M (list Added.t) :=
  graph ← loadGraph;
  '(results, ents) ← lift (addAll items (entities graph));
  _ ← saveGraph {| entities := ents; relations := relations graph |};
  mret results.

Definition deleteEntities (entityNames : list string) : M unit :=
  graph ← loadGraph;
  let graph :=
    {| entities := filter (fun e => name e ∉ entityNames) (entities graph);
       relations := filter (fun r => (from r ∉ entityNames) /\ (to r ∉ entityNames))
                           (relations graph) |} in
  saveGraph graph.

(** The callback of [deletions.forEach] in [deleteObservations]. *)
Definition deleteObservation (ents : list Entity) (d : Deletion.t) : list Entity :=
  match list_find (fun e => name e = Deletion.entityName d) ents with
  | Some (i, entity) =>
      <[i := {| name := name entity;
                entityType := entityType entity;
                observations := filter (fun o => o ∉ Deletion.observations d)
                                       (observations entity) |}]> ents
  | None => ents
  end.

Definition deleteObservations (deletions : list Deletion.t) : M unit :=
  graph ← loadGraph;
  saveGraph {| entities := fold_left deleteObservation deletions (entities graph);
               relations := relations graph |}.

Definition deleteRelations (doomed : list Relation) : M unit :=
  graph ← loadGraph;
  let graph :=
    {| entities := entities graph;
       relations := filter (fun r => ~ Exists (fun delRelation => sameTriple r delRelation) doomed)
                           (relations graph) |} in
  saveGraph graph.

Definition readGraph : M KnowledgeGraph := loadGraph.

(** The relations between the entities of a result: both endpoints in
    the [Set] of the names of [filteredEntities]. *)
Definition between (filteredEntities : list Entity) (graph : KnowledgeGraph)
    : KnowledgeGraph :=
  let filteredEntityNames : gset string := list_to_set (name <$> filteredEntities) in
  let filteredRelations :=
    filter (fun r => from r ∈ filteredEntityNames /\ to r ∈ filteredEntityNames)
           (relations graph) in
  {| entities := filteredEntities; relations := filteredRelations |}.

(** The entity filter of [searchNodes]. *)
Definition matches (query : string) (e : Entity) : bool :=
  Text.includes (Text.toLowerCase (name e)) (Text.toLowerCase query) ||
  Text.includes (Text.toLowerCase (entityType e)) (Text.toLowerCase query) ||
  existsb (fun o => Text.includes (Text.toLowerCase o) (Text.toLowerCase query))
          (observations e).

Definition searchNodes (query : string) : M KnowledgeGraph :=
  graph ← loadGraph;
  let filteredEntities := filter (fun e => matches query e) (entities graph) in
  mret (between filteredEntities graph).

Definition openNodes (names : list string) : M KnowledgeGraph :=
  graph ← loadGraph;
  let filteredEntities := filter (fun e => name e ∈ names) (entities graph) in
  mret (between filteredEntities graph).

(** ** The tool-call handler *)

(** [JSON.stringify(value, null, 2)]: every member and every item on a
    line of its own, two spaces deeper than what holds it. *)
Fixpoint stringifyIndent (indent : string) (v : JSON.json) {struct v} : string :=
  let inner := indent +:+ "  " in
  let separator := "," +:+ String Text.newline inner in
  match v with
  | JSON.JNull => "null"
  | JSON.JBool true => "true"
  | JSON.JBool false => "false"
  | JSON.JNumber literal => literal
  | JSON.JString s => JSON.quote s
  | JSON.JArray [] => "[]"
  | JSON.JArray items =>
      "[" +:+ String Text.newline inner +:+
      Text.join separator (map (stringifyIndent inner) items) +:+
      String Text.newline indent +:+ "]"
  | JSON.JObject [] => "{}"
  | JSON.JObject members =>
      "{" +:+ String Text.newline inner +:+
      Text.join separator
        (map (fun m => JSON.quote (fst m) +:+ ": " +:+ stringifyIndent inner (snd m))
             members) +:+
      String Text.newline indent +:+ "}"
  end.

Definition pretty (v : JSON.json) : string := stringifyIndent "" v.

(** The results as the handler hands them to [JSON.stringify].  What
    [createEntities] and [createRelations] return are the objects of the
    request as they came; the graphs of the read operations hold the
    objects that [loadGraph] parsed, with the members that the lines of
    the file give them.  The embedding follows the requests and the files
    whose objects hold the members below, in this order, and no other:
    see [exactEntity], [exactRelation] and [canonical]. *)
Definition entityObject (e : Entity) : JSON.json :=
  JSON.JObject
    [("name", JSON.JString (name e));
     ("entityType", JSON.JString (entityType e));
     ("observations", JSON.JArray (JSON.JString <$> observations e))].

Definition relationObject (r : Relation) : JSON.json :=
  JSON.JObject
    [("from", JSON.JString (from r));
     ("to", JSON.JString (to r));
     ("relationType", JSON.JString (relationType r))].

Definition addedObject (a : Added.t) : JSON.json :=
  JSON.JObject
    [("entityName", JSON.JString (Added.entityName a));
     ("addedObservations", JSON.JArray (JSON.JString <$> Added.addedObservations a))].

Definition graphObject (graph : KnowledgeGraph) : JSON.json :=
  JSON.JObject
    [("entities", JSON.JArray (entityRecord <$> entities graph));
     ("relations", JSON.JArray (relationRecord <$> relations graph))].

(** [value as T[]] and the casts to the item types of the batches and of
    the results, partial like [asEntity]. *)
Definition asList {A : Type} (as_ : JSON.json -> option A) (v : JSON.json)
    : option (list A) :=
  match v with
  | JSON.JArray items => mapM as_ items
  | _ => None
  end.

(** [item as Entity] and [item as Relation] on an object of a request
    that the program stores and hands back as it came: it fits when it is
    what [entityObject] or [relationObject] writes of a record. *)
Definition exactEntity (item : JSON.json) : option Entity :=
  match item with
  | JSON.JObject [(k1, JSON.JString n); (k2, JSON.JString t); (k3, JSON.JArray items)] =>
      if String.eqb k1 "name" && String.eqb k2 "entityType" &&
         String.eqb k3 "observations"
      then obs ← mapM asString items;
           Some {| name := n; entityType := t; observations := obs |}
      else None
  | _ => None
  end.

Definition exactRelation (item : JSON.json) : option Relation :=
  match item with
  | JSON.JObject [(k1, JSON.JString f); (k2, JSON.JString t); (k3, JSON.JString k)] =>
      if String.eqb k1 "from" && String.eqb k2 "to" && String.eqb k3 "relationType"
      then Some {| from := f; to := t; relationType := k |}
      else None
  | _ => None
  end.

(** The items of the other batches: the program reads the properties
    named here and no other. *)
Definition asAddition (item : JSON.json) : option Addition.t :=
  match item with
  | JSON.JObject members =>
      n ← field "entityName" members;
      c ← JSON.get "contents" members ≫= asList asString;
      Some {| Addition.entityName := n; Addition.contents := c |}
  | _ => None
  end.

Definition asDeletion (item : JSON.json) : option Deletion.t :=
  match item with
  | JSON.JObject members =>
      n ← field "entityName" members;
      o ← JSON.get "observations" members ≫= asList asString;
      Some {| Deletion.entityName := n; Deletion.observations := o |}
  | _ => None
  end.

Definition asAdded (item : JSON.json) : option Added.t :=
  match item with
  | JSON.JObject members =>
      n ← field "entityName" members;
      o ← JSON.get "addedObservations" members ≫= asList asString;
      Some {| Added.entityName := n; Added.addedObservations := o |}
  | _ => None
  end.

Definition asGraph (v : JSON.json) : option KnowledgeGraph :=
  match v with
  | JSON.JObject members =>
      es ← JSON.get "entities" members ≫= asList asEntity;
      rs ← JSON.get "relations" members ≫= asList asRelation;
      Some {| entities := es; relations := rs |}
  | _ => None
  end.

(** What the handler throws: an error of the store, an error of its own
    with a message, or, in the embedding only, [Unfit] where the arguments
    of the request do not fit the type the handler casts them to, or the
    file is not one on which the embedding follows a read tool. *)
Inductive failure : Type :=
| StoreError (e : error)
| PlainError (message : string)
| Unfit.

Inductive outcome (A : Type) : Type :=
| Replied (a : A)
| Failed (f : failure).
Arguments Replied {A} a.
Arguments Failed {A} f.

Definition Handler (A : Type) : Type := store -> outcome A * store.

#[global] Instance Handler_ret : MRet Handler := fun A a s => (Replied a, s).
#[global] Instance Handler_bind : MBind Handler := fun A B f m s =>
  match m s with
  | (Replied a, s') => f a s'
  | (Failed e, s') => (Failed e, s')
  end.

Definition fail {A : Type} (f : failure) : Handler A := fun s => (Failed f, s).

(** An operation of the manager, awaited by the handler. *)
Definition await {A : Type} (m : M A) : Handler A := fun s =>
  match m s with
  | (Returned a, s') => (Replied a, s')
  | (Thrown e, s') => (Failed (StoreError e), s')
  end.

(** [try { body } catch (error) { throw error }]. *)
Definition rethrowing {A : Type} (body : Handler A) : Handler A := fun s =>
  match body s with
  | (Failed f, s') => fail f s'
  | done => done
  end.

(** [args.key as T]. *)
Definition argument {A : Type} (as_ : JSON.json -> option A) (key : string)
    (args : list (string * JSON.json)) : Handler A :=
  match JSON.get key args ≫= as_ with
  | Some a => mret a
  | None => fail Unfit
  end.

Record TextContent := { type : string; text : string }.

Record CallToolResult := { content : list TextContent }.

(** The reply of a read tool holds the objects of the file.  The
    embedding follows it on a file that holds what [saveGraph] writes of
    typed records, and on a file that does not load. *)
Definition canonical : Handler unit := fun s =>
  match readFile s with
  | (Returned data, _) =>
      match decode data with
      | Returned graph =>
          if String.eqb data (encode graph) then (Replied tt, s) else (Failed Unfit, s)
      | Thrown _ => (Replied tt, s)
      end
  | (Thrown _, _) => (Replied tt, s)
  end.

(** [{ content: [{ type: "text", text: responseText }] }]. *)
Definition textReply (responseText : string) : CallToolResult :=
  {| content := [ {| type := "text"; text := responseText |} ] |}.

(** The handler of [CallToolRequestSchema], on the [name] and the
    [arguments] of the request.  The create tools store the objects of the
    request and hand them back, so they take the exact casts; the other
    tools read named properties of their items and nothing else. *)
Definition callTool (name : string) (args : option (list (string * JSON.json)))
    : Handler CallToolResult :=
  match args with
  | None => fail (PlainError ("No arguments provided for tool: " +:+ name))
  | Some args =>
      rethrowing
        (if String.eqb name "create_entities" then
           candidates ← argument (asList exactEntity) "entities" args;
           result ← await (createEntities candidates);
           mret (textReply (pretty (JSON.JArray (entityObject <$> result))))
         else if String.eqb name "create_relations" then
           candidates ← argument (asList exactRelation) "relations" args;
           result ← await (createRelations candidates);
           mret (textReply (pretty (JSON.JArray (relationObject <$> result))))
         else if String.eqb name "add_observations" then
           items ← argument (asList asAddition) "observations" args;
           result ← await (addObservations items);
           mret (textReply (pretty (JSON.JArray (addedObject <$> result))))
         else if String.eqb name "delete_entities" then
           entityNames ← argument (asList asString) "entityNames" args;
           _ ← await (deleteEntities entityNames);
           mret (textReply "Entities deleted successfully")
         else if String.eqb name "delete_observations" then
           deletions ← argument (asList asDeletion) "deletions" args;
           _ ← await (deleteObservations deletions);
           mret (textReply "Observations deleted successfully")
         else if String.eqb name "delete_relations" then
           doomed ← argument (asList asRelation) "relations" args;
           _ ← await (deleteRelations doomed);
           mret (textReply "Relations deleted successfully")
         else if String.eqb name "read_graph" then
           _ ← canonical;
           result ← await readGraph;
           mret (textReply (pretty (graphObject result)))
         else if String.eqb name "search_nodes" then
           query ← argument asString "query" args;
           _ ← canonical;
           result ← await (searchNodes query);
           mret (textReply (pretty (graphObject result)))
         else if String.eqb name "open_nodes" then
           names ← argument (asList asString) "names" args;
           _ ← canonical;
           result ← await (openNodes names);
           mret (textReply (pretty (graphObject result)))
         else fail (PlainError ("Unknown tool: " +:+ name)))
  end.

(** The names that the handler of [ListToolsRequestSchema] lists, in its
    order; they are the labels of the [switch] as well. *)
Definition toolNames : list string :=
  ["create_entities"; "create_relations"; "add_observations"; "delete_entities";
   "delete_observations"; "delete_relations"; "read_graph"; "search_nodes";
   "open_nodes"].

(** ** Vocabulary of the statements *)

(** The identity of a relation. *)
Definition triple (r : Relation) : string * string * string :=
  (from r, to r, relationType r).

(** No observation list of the graph holds a string twice. *)
Definition tidy (ents : list Entity) : Prop :=
  Forall (fun e => NoDup (observations e)) ents.

(** Among the contents of item [o], the strings that its entity does not
    hold in [ents] are pairwise distinct. *)
Definition fresh_once (ents : list Entity) (o : Addition.t) : Prop :=
  match list_find (fun e => name e = Addition.entityName o) ents with
  | Some (_, e) => NoDup (filter (fun content => content ∉ observations e)
                                 (Addition.contents o))
  | None => True
  end.

(** [ents] is [ents0] after some additions: the same entities at the same
    places, each with the observations it had, and maybe more. *)
Definition grown (ents0 ents : list Entity) : Prop :=
  Forall2 (fun e0 e => name e0 = name e /\ observations e0 ⊆ observations e)
          ents0 ents.

(** Every relation of [found] runs between two entities of [found]. *)
Definition induced (found : KnowledgeGraph) : Prop :=
  forall r, r ∈ relations found ->
    (from r ∈ name <$> entities found) /\ (to r ∈ name <$> entities found).

(** [v] is read back from its own text by every fuel from [n] on,
    whatever follows it. *)
Definition reads_back (n : nat) (v : JSON.json) : Prop :=
  forall fuel rest, n <= fuel ->
    JSON.parse_value fuel (JSON.stringify v +:+ rest) = Some (v, rest).

(** One member of an object as [JSON.stringify] writes it. *)
Definition member_text (m : string * JSON.json) : string :=
  JSON.quote (fst m) +:+ ":" +:+ JSON.stringify (snd m).

(** A text without a line feed: [split] leaves it whole. *)
Definition one_line (s : string) : Prop := Text.split s = [s].

(** ** Sample data *)

Definition alice : Entity :=
  {| name := "Alice"; entityType := "Person"; observations := ["Likes COFFEE"] |}.

Definition bob : Entity :=
  {| name := "Bob"; entityType := "Person"; observations := [] |}.

Definition knows : Relation :=
  {| from := "Alice"; to := "Bob"; relationType := "knows" |}.

(** A file holding Alice, Bob and the relation between them. *)
Definition acquainted : store :=
  Stored (encode {| entities := [alice; bob]; relations := [knows] |}).

(** A file whose only relation points at an entity that is not there. *)
Definition dangling : store :=
  Stored (encode {| entities := [alice]; relations := [knows] |}).

(** The second string of the first item is new; the others are held by
    Alice when their turn comes. *)
Definition coffee_twice : list Addition.t :=
  [ {| Addition.entityName := "Alice";
       Addition.contents := ["Likes COFFEE"; "Drinks tea"; "Likes COFFEE"] |};
    {| Addition.entityName := "Alice"; Addition.contents := ["Drinks tea"] |} ].

Definition tea_twice : list Addition.t :=
  [ {| Addition.entityName := "Alice";
       Addition.contents := ["Drinks tea"; "Drinks tea"] |} ].

Definition carol_unknown : list Addition.t :=
  [ {| Addition.entityName := "Alice"; Addition.contents := ["x"] |};
    {| Addition.entityName := "Carol"; Addition.contents := ["y"] |} ].

(** ** Vocabulary of the further properties *)

(** A call of [m] that throws an exception of the program has left the
    file as it found it, unless the graph had loaded and it is [saveGraph]
    that threw: [m] writes last. *)
Definition writesLast {A : Type} (m : M A) : Prop :=
  forall s e s', genuine e -> m s = (Thrown e, s') ->
    s' = s \/
    exists graph graph', (loadGraph s).1 = Returned graph /\
                         saveGraph graph' s = (Thrown e, s').

(** A file that holds no JSON. *)
Definition corrupt : store := Stored "{oops".

(** A line of the file as a reader meets it: the record of an entity, the
    record of a relation, or white space only. *)
Inductive fileLine : Type :=
| EntityLine (e : Entity)
| RelationLine (r : Relation)
| BlankLine (pad : string).

Definition lineText (l : fileLine) : string :=
  match l with
  | EntityLine e => JSON.stringify (entityRecord e)
  | RelationLine r => JSON.stringify (relationRecord r)
  | BlankLine pad => pad
  end.

Definition lineEntity (l : fileLine) : option Entity :=
  match l with EntityLine e => Some e | _ => None end.

Definition lineRelation (l : fileLine) : option Relation :=
  match l with RelationLine r => Some r | _ => None end.

(** White space without a line feed. *)
Definition blank (pad : string) : Prop := one_line pad /\ Text.trim pad = "".

Definition wellPadded (l : fileLine) : Prop :=
  match l with
  | BlankLine pad => blank pad
  | _ => True
  end.

(** The three uniqueness invariants of a graph, and referential
    integrity. *)
Definition distinctNames (graph : KnowledgeGraph) : Prop :=
  NoDup (name <$> entities graph).

Definition distinctTriples (graph : KnowledgeGraph) : Prop :=
  NoDup (triple <$> relations graph).

Definition tidyGraph (graph : KnowledgeGraph) : Prop := tidy (entities graph).

Definition closed (graph : KnowledgeGraph) : Prop :=
  forall r, r ∈ relations graph ->
    (from r ∈ name <$> entities graph) /\ (to r ∈ name <$> entities graph).

(** A call of [op] that completes on a graph with property [P] stores a
    graph with property [P]. *)
Definition keeps {A : Type} (P : KnowledgeGraph -> Prop) (op : M A) : Prop :=
  forall s s1 graph a,
    (loadGraph s).1 = Returned graph -> P graph ->
    op s = (Returned a, s1) ->
    exists graph1, loadGraph s1 = (Returned graph1, s1) /\ P graph1.

(** Some item of [deletions] names entity [e] and lists [o]. *)
Definition listed (deletions : list Deletion.t) (e : Entity) (o : string) : Prop :=
  Exists (fun d => Deletion.entityName d = name e /\ o ∈ Deletion.observations d)
         deletions.

(** Entity [e] without the observations that [deletions] list for it. *)
Definition purged (deletions : list Deletion.t) (e : Entity) : Entity :=
  {| name := name e;
     entityType := entityType e;
     observations := filter (fun o => ~ listed deletions e o) (observations e) |}.

(** [query], in lower case, is a substring of [field] in lower case. *)
Definition occursIn (query field : string) : Prop :=
  exists pre post,
    Text.toLowerCase field = pre +:+ Text.toLowerCase query +:+ post.

(** [ents] is [ents0] with observations appended: the same entities at
    the same places, each with the observations it had as a prefix of
    those it has. *)
Definition extended (ents0 ents : list Entity) : Prop :=
  Forall2 (fun e0 e => name e0 = name e /\ entityType e0 = entityType e /\
                       observations e0 `prefix_of` observations e)
          ents0 ents.

(** The first entity named by item [o] holds every string of [o]. *)
Definition holdsContents (ents : list Entity) (o : Addition.t) : Prop :=
  exists i e,
    list_find (fun e => name e = Addition.entityName o) ents = Some (i, e) /\
    forall c, c ∈ Addition.contents o -> c ∈ observations e.

(** Result [a] answers item [o]. *)
Definition answers (o : Addition.t) (a : Added.t) : Prop :=
  Added.entityName a = Addition.entityName o /\
  Added.addedObservations a `sublist_of` Addition.contents o.

(** The deletion that takes back what result [a] reports as added. *)
Definition undo (a : Added.t) : Deletion.t :=
  {| Deletion.entityName := Added.entityName a;
     Deletion.observations := Added.addedObservations a |}.

(** The file can be written. *)
Definition writable (s : store) : Prop :=
  match s with
  | Failing _ | Brittle _ _ _ => False
  | Missing | Stored _ => True
  end.

(** A call of [op] on [s] returns [a] and leaves a file that holds a text
    of [graph]. *)
Definition rewrites {A : Type} (op : M A) (a : A) (s : store)
    (graph : KnowledgeGraph) : Prop :=
  exists data, op s = (Returned a, Stored data) /\ decode data = Returned graph.

(** A file holding Alice only. *)
Definition alone : store :=
  Stored (encode {| entities := [alice]; relations := [] |}).

Definition admires : Relation :=
  {| from := "Bob"; to := "Alice"; relationType := "admires" |}.

(** A deletion that names an entity the sample files do not hold. *)
Definition carol_gone : list Deletion.t :=
  [ {| Deletion.entityName := "Carol"; Deletion.observations := ["Likes COFFEE"] |} ].

Definition coffee_gone : list Deletion.t :=
  [ {| Deletion.entityName := "Alice"; Deletion.observations := ["Likes COFFEE"] |};
    {| Deletion.entityName := "Carol"; Deletion.observations := ["x"] |} ].

(** A file that can be neither read nor written. *)
Definition locked : store := Failing "EACCES".

(** A file that holds Alice, Bob and their relation on a full disk: a
    write fails and leaves it empty. *)
Definition worn : store :=
  Brittle (Some (encode {| entities := [alice; bob]; relations := [knows] |}))
          "ENOSPC" (Some "").

(** A file whose second line is no JSON. *)
Definition half_corrupt : store :=
  Stored (JSON.stringify (entityRecord alice) +:+ String Text.newline "{oops").

Definition carol : Entity :=
  {| name := "Carol"; entityType := "Person"; observations := ["Likes tea"] |}.

Definition dave : Entity :=
  {| name := "Dave"; entityType := "Dog"; observations := [] |}.

Definition knows_back : Relation :=
  {| from := "Bob"; to := "Alice"; relationType := "knows" |}.

Definition admires_back : Relation :=
  {| from := "Alice"; to := "Bob"; relationType := "admires" |}.

(** A file holding Alice, Bob and two relations between them. *)
Definition befriended : store :=
  Stored (encode {| entities := [alice; bob]; relations := [knows; admires] |}).

(** A JSON value without a number. *)
Fixpoint plain (v : JSON.json) : bool :=
  match v with
  | JSON.JNumber _ => false
  | JSON.JArray items => forallb plain items
  | JSON.JObject members => forallb (fun m => plain (snd m)) members
  | _ => true
  end.

(** A fuel that reads [v] back. *)
Fixpoint cost (v : JSON.json) : nat :=
  match v with
  | JSON.JArray items => foldr max 0 (map cost items) + S (length items)
  | JSON.JObject members =>
      foldr max 0 (map (fun m => cost (snd m)) members) + S (length members)
  | _ => 1
  end.

(** White space to the eye of the parser. *)
Definition skipped (w : string) : Prop :=
  forall r, JSON.skip_ws (w +:+ r) = JSON.skip_ws r.

(** [v], printed at [indent], is read back by every fuel from [n] on. *)
Definition reads_back_at (indent : string) (n : nat) (v : JSON.json) : Prop :=
  forall fuel rest, n <= fuel ->
    JSON.parse_value fuel (stringifyIndent indent v +:+ rest) = Some (v, rest).

(** The first character of a text is no white space and no closing
    bracket or brace. *)
Definition opens (text : string) : Prop :=
  exists c r, text = String c r /\ JSON.is_ws c = false /\
              Ascii.eqb c "]" = false /\ Ascii.eqb c "}" = false.

(** One member of an object as [stringifyIndent] writes it at [inner]. *)
Definition member_line (inner : string) (m : string * JSON.json) : string :=
  JSON.quote (fst m) +:+ ": " +:+ stringifyIndent inner (snd m).

(** Reply [r] is one text item whose text is [v] as
    [JSON.stringify(v, null, 2)] writes it, and [JSON.parse] reads that
    text back as what [cast] reads as [result]. *)
Definition tells {B : Type} (cast : JSON.json -> option B) (r : CallToolResult)
    (v : JSON.json) (result : B) : Prop :=
  r = textReply (pretty v) /\ JSON.parse (pretty v) ≫= cast = Some result.

(** A call that fails, where the embedding follows it, has left the file
    as it found it, unless the graph had loaded and it is [saveGraph]
    that threw. *)
Definition settled {A : Type} (h : Handler A) : Prop :=
  forall s f s', h s = (Failed f, s') ->
    match f with
    | Unfit => True
    | PlainError _ => s' = s
    | StoreError e =>
        genuine e ->
        s' = s \/
        exists graph graph', (loadGraph s).1 = Returned graph /\
                             saveGraph graph' s = (Thrown e, s')
    end.

(** A call that, where the embedding follows it, never changes the
    file. *)
Definition reading {A : Type} (h : Handler A) : Prop :=
  forall s, match h s with
            | (Failed Unfit, _) => True
            | (Failed (StoreError e), s') => genuine e -> s' = s
            | (Failed (PlainError _), s') | (Replied _, s') => s' = s
            end.

(** The arguments of two requests: one that creates Bob, one that adds an
    observation to Carol. *)
Definition bob_request : list (string * JSON.json) :=
  [("entities", JSON.JArray [entityObject bob])].

(** A request that creates Alice, Bob and Carol. *)
Definition friends_request : list (string * JSON.json) :=
  [("entities", JSON.JArray [entityObject alice; entityObject bob; entityObject carol])].

Definition carol_request : list (string * JSON.json) :=
  [("observations",
    JSON.JArray
      [JSON.JObject [("entityName", JSON.JString "Carol");
                     ("contents", JSON.JArray [JSON.JString "Likes tea"])]])].

(** ** Strings *)

Lemma append_cons (x : ascii) (a b : string) : String x a +:+ b = String x (a +:+ b).
Proof. reflexivity. Qed.

Lemma append_nil (b : string) : "" +:+ b = b.
Proof. reflexivity. Qed.

Lemma append_assoc (a b c : string) : (a +:+ b) +:+ c = a +:+ (b +:+ c).
Proof.
  induction a as [|x a IH]; [reflexivity |].
  rewrite !append_cons. by rewrite IH.
Qed.

Lemma append_empty (s : string) : s +:+ "" = s.
Proof. induction s as [|c s IH]; [done |]. by rewrite append_cons, IH. Qed.

Lemma length_append (a b : string) :
  String.length (a +:+ b) = String.length a + String.length b.
Proof.
  induction a as [|c a IH]; [done |].
  rewrite append_cons. cbn [String.length]. by rewrite IH.
Qed.

Lemma join_cons2 (sep p q : string) (ps : list string) :
  Text.join sep (p :: q :: ps) = p +:+ sep +:+ Text.join sep (q :: ps).
Proof. reflexivity. Qed.

Ltac norm_append :=
  repeat (rewrite append_assoc || rewrite append_cons || rewrite append_nil).

(** ** Reading back what [JSON.stringify] wrote *)

(** The parser undoes every escape of the printer. *)
Lemma parse_chars_escape (c : ascii) (tail : string) :
  JSON.parse_chars (JSON.escape c +:+ tail) =
  '(str, rest) ← JSON.parse_chars tail; Some (String c str, rest).
Proof.
  destruct c as [[] [] [] [] [] [] [] []]; reflexivity.
Qed.

Lemma parse_chars_escaped (s rest : string) :
  JSON.parse_chars (JSON.escaped s +:+ String Text.dquote rest) = Some (s, rest).
Proof.
  induction s as [|c s IH]; [reflexivity |].
  cbn [JSON.escaped]. rewrite append_assoc, parse_chars_escape, IH. reflexivity.
Qed.

Lemma quote_append (s rest : string) :
  JSON.quote s +:+ rest = String Text.dquote (JSON.escaped s +:+ String Text.dquote rest).
Proof. unfold JSON.quote. by rewrite append_cons, append_assoc. Qed.

Lemma parse_value_dquote (fuel : nat) (r : string) :
  JSON.parse_value (S fuel) (String Text.dquote r) =
  '(str, rest) ← JSON.parse_chars r; Some (JSON.JString str, rest).
Proof. reflexivity. Qed.

Lemma parse_value_quote (fuel : nat) (s rest : string) :
  JSON.parse_value (S fuel) (JSON.quote s +:+ rest) = Some (JSON.JString s, rest).
Proof.
  by rewrite quote_append, parse_value_dquote, parse_chars_escaped.
Qed.

Lemma parse_elements_S (fuel : nat) (s : string) :
  JSON.parse_elements (S fuel) s =
  '(v, r) ← JSON.parse_value fuel s;
  match JSON.skip_ws r with
  | String c r' =>
      if Ascii.eqb c "," then
        '(vs, rest) ← JSON.parse_elements fuel r'; Some (v :: vs, rest)
      else if Ascii.eqb c "]" then Some ([v], r')
      else None
  | EmptyString => None
  end.
Proof. reflexivity. Qed.

Lemma parse_members_S (fuel : nat) (s : string) :
  JSON.parse_members (S fuel) (String Text.dquote s) =
  '(key, r1) ← JSON.parse_chars s;
  match JSON.skip_ws r1 with
  | String c r2 =>
      if Ascii.eqb c ":" then
        '(v, r3) ← JSON.parse_value fuel r2;
        match JSON.skip_ws r3 with
        | String c' r4 =>
            if Ascii.eqb c' "," then
              '(ms, rest) ← JSON.parse_members fuel r4;
              Some ((key, v) :: ms, rest)
            else if Ascii.eqb c' "}" then Some ([(key, v)], r4)
            else None
        | EmptyString => None
        end
      else None
  | EmptyString => None
  end.
Proof. reflexivity. Qed.

Lemma parse_value_bracket (fuel : nat) (r : string) :
  JSON.parse_value (S fuel) (String "[" r) =
  match JSON.skip_ws r with
  | String c' r' =>
      if Ascii.eqb c' "]" then Some (JSON.JArray [], r')
      else '(vs, rest) ← JSON.parse_elements fuel r; Some (JSON.JArray vs, rest)
  | EmptyString => None
  end.
Proof. reflexivity. Qed.

Lemma parse_value_brace (fuel : nat) (r : string) :
  JSON.parse_value (S fuel) (String "{" r) =
  match JSON.skip_ws r with
  | String c' r' =>
      if Ascii.eqb c' "}" then Some (JSON.JObject [], r')
      else '(ms, rest) ← JSON.parse_members fuel r; Some (JSON.JObject ms, rest)
  | EmptyString => None
  end.
Proof. reflexivity. Qed.

Lemma skip_ws_stop (c : ascii) (r : string) :
  JSON.is_ws c = false -> JSON.skip_ws (String c r) = String c r.
Proof. intros H. cbn [JSON.skip_ws]. by rewrite H. Qed.

(** One step of the parser on a text whose next character is known. *)
Ltac parser_step :=
  cbv beta iota zeta delta [mbind option_bind];
  rewrite ?skip_ws_stop by reflexivity;
  cbv beta iota zeta delta [Ascii.eqb Bool.eqb].

Section ReadsBack.

Variable n : nat.

Lemma parse_elements_reads_back (v : JSON.json) (vs : list JSON.json)
    (fuel : nat) (rest : string) :
  Forall (reads_back n) (v :: vs) ->
  n + S (length vs) <= fuel ->
  JSON.parse_elements fuel
    (Text.join "," (map JSON.stringify (v :: vs)) +:+ String "]" rest) =
  Some (v :: vs, rest).
Proof.
  revert v fuel. induction vs as [|v' vs IH]; intros v fuel Hall Hfuel;
    (destruct fuel as [|fuel]; [simpl in Hfuel; lia |]);
    rewrite parse_elements_S; inversion_clear Hall as [|? ? Hv Hvs].
  - cbn [map Text.join]. rewrite Hv by (simpl in Hfuel; lia). reflexivity.
  - cbn [map]. rewrite join_cons2, !append_assoc.
    rewrite Hv by (simpl in Hfuel; lia).
    rewrite append_cons, append_nil. parser_step.
    cbn [map] in IH. rewrite IH by (simpl in Hfuel; done || lia).
    reflexivity.
Qed.

Lemma reads_back_array (vs : list JSON.json) :
  Forall (reads_back n) vs ->
  Forall (fun v => exists c r, JSON.stringify v = String c r /\
                    JSON.is_ws c = false /\ Ascii.eqb c "]" = false) vs ->
  reads_back (n + S (length vs)) (JSON.JArray vs).
Proof.
  intros Hall Hhead [|fuel] rest Hfuel; [lia |].
  cbn [JSON.stringify]. norm_append. rewrite parse_value_bracket.
  destruct vs as [|v vs].
  - reflexivity.
  - inversion_clear Hhead as [|? ? (c & r & Hv & Hws & Hc) _].
    assert (exists r', Text.join "," (map JSON.stringify (v :: vs)) +:+ String "]" rest
                       = String c r') as [r' Hr'].
    { destruct vs; cbn [map Text.join]; rewrite Hv; by eexists. }
    rewrite Hr', skip_ws_stop by done. cbv beta iota. rewrite Hc. rewrite <- Hr'.
    rewrite parse_elements_reads_back; [reflexivity | done |].
    simpl in Hfuel |- *. lia.
Qed.

Lemma member_text_append (k : string) (v : JSON.json) (rest : string) :
  member_text (k, v) +:+ rest =
  String Text.dquote
    (JSON.escaped k +:+ String Text.dquote (String ":" (JSON.stringify v +:+ rest))).
Proof.
  unfold member_text. cbn [fst snd].
  rewrite append_assoc, quote_append. by norm_append.
Qed.

Lemma parse_members_reads_back (m : string * JSON.json)
    (ms : list (string * JSON.json)) (fuel : nat) (rest : string) :
  Forall (fun m => reads_back n (snd m)) (m :: ms) ->
  n + S (length ms) <= fuel ->
  JSON.parse_members fuel
    (Text.join "," (map member_text (m :: ms)) +:+ String "}" rest) =
  Some (m :: ms, rest).
Proof.
  revert m fuel. induction ms as [|m' ms IH]; intros [k v] fuel Hall Hfuel;
    (destruct fuel as [|fuel]; [simpl in Hfuel; lia |]);
    inversion_clear Hall as [|? ? Hv Hvs]; cbn [snd] in Hv.
  - cbn [map Text.join]. rewrite member_text_append, parse_members_S.
    rewrite parse_chars_escaped. parser_step.
    rewrite Hv by (simpl in Hfuel; lia). reflexivity.
  - cbn [map]. rewrite join_cons2, !append_assoc.
    rewrite member_text_append, parse_members_S.
    rewrite parse_chars_escaped. parser_step.
    rewrite Hv by (simpl in Hfuel; lia).
    norm_append. parser_step.
    cbn [map] in IH. rewrite IH by (simpl in Hfuel; done || lia).
    reflexivity.
Qed.

Lemma reads_back_object (ms : list (string * JSON.json)) :
  Forall (fun m => reads_back n (snd m)) ms ->
  reads_back (n + S (length ms)) (JSON.JObject ms).
Proof.
  intros Hall [|fuel] rest Hfuel; [lia |].
  cbn [JSON.stringify]. fold member_text.
  norm_append. rewrite parse_value_brace.
  destruct ms as [|[k v] ms].
  - reflexivity.
  - assert (exists r', Text.join "," (map member_text ((k, v) :: ms)) +:+ String "}" rest
                       = String Text.dquote r') as [r' Hr'].
    { destruct ms; cbn [map Text.join]; rewrite ?append_assoc, member_text_append;
        by eexists. }
    rewrite Hr', skip_ws_stop by done. cbv beta iota.
    change (Ascii.eqb Text.dquote "}") with false. cbv iota. rewrite <- Hr'.
    rewrite parse_members_reads_back; [reflexivity | done |].
    simpl in Hfuel |- *. lia.
Qed.

End ReadsBack.

Lemma reads_back_string (s : string) : reads_back 1 (JSON.JString s).
Proof.
  intros [|fuel] rest Hfuel; [lia |]. apply parse_value_quote.
Qed.

Lemma reads_back_mono (n n' : nat) (v : JSON.json) :
  n <= n' -> reads_back n v -> reads_back n' v.
Proof. intros Hn Hv fuel rest Hfuel. apply Hv. lia. Qed.

Lemma reads_back_strings (obs : list string) :
  reads_back (1 + S (length obs)) (JSON.JArray (map JSON.JString obs)).
Proof.
  replace (length obs) with (length (map JSON.JString obs)) by apply length_map.
  apply reads_back_array.
  - induction obs; constructor; auto using reads_back_string.
  - induction obs; constructor; auto. by eexists _, _.
Qed.

Lemma reads_back_entityRecord (e : Entity) :
  reads_back (7 + length (observations e)) (entityRecord e).
Proof.
  eapply reads_back_mono;
    [| apply (reads_back_object (2 + length (observations e)))];
    [cbn [length]; lia |].
  repeat constructor; cbn [snd];
    try (eapply reads_back_mono; [| apply reads_back_string]; lia).
  apply reads_back_strings.
Qed.

Lemma reads_back_relationRecord (r : Relation) :
  reads_back 6 (relationRecord r).
Proof.
  eapply reads_back_mono; [| apply (reads_back_object 1)]; [cbn [length]; lia |].
  repeat constructor; apply reads_back_string.
Qed.

Lemma parse_reads_back (n : nat) (v : JSON.json) :
  reads_back n v -> n <= S (String.length (JSON.stringify v)) ->
  JSON.parse (JSON.stringify v) = Some v.
Proof.
  intros Hv Hn. unfold JSON.parse.
  rewrite <- (append_empty (JSON.stringify v)) at 2.
  by rewrite Hv.
Qed.

Lemma length_join_strings (obs : list string) :
  length obs <= String.length (Text.join "," (map JSON.stringify (map JSON.JString obs))).
Proof.
  induction obs as [|o obs IH]; [done |].
  destruct obs as [|o' obs].
  - cbn. lia.
  - cbn [map] in *. rewrite join_cons2, !length_append.
    cbn [length String.length] in *. lia.
Qed.

Lemma parse_entityRecord (e : Entity) :
  JSON.parse (JSON.stringify (entityRecord e)) = Some (entityRecord e).
Proof.
  apply (parse_reads_back _ _ (reads_back_entityRecord e)).
  unfold entityRecord. cbn [JSON.stringify map fst snd Text.join].
  rewrite !length_append.
  pose proof (length_join_strings (observations e)).
  cbn [String.length]. lia.
Qed.

Lemma parse_relationRecord (r : Relation) :
  JSON.parse (JSON.stringify (relationRecord r)) = Some (relationRecord r).
Proof.
  apply (parse_reads_back _ _ (reads_back_relationRecord r)).
  unfold relationRecord. cbn [JSON.stringify map fst snd Text.join].
  rewrite !length_append. cbn [String.length]. lia.
Qed.

(** ** Lines *)

Lemma split_cons (c : ascii) (r : string) :
  Text.split (String c r) =
  if Ascii.eqb c Text.newline then EmptyString :: Text.split r
  else match Text.split r with
       | l :: ls => String c l :: ls
       | [] => [String c EmptyString]
       end.
Proof. reflexivity. Qed.

Lemma split_nonempty (s : string) : Text.split s <> [].
Proof.
  induction s as [|c s IH]; [done |].
  rewrite split_cons. destruct (Ascii.eqb c Text.newline); [done |].
  by destruct (Text.split s).
Qed.

Lemma one_line_cons (c : ascii) (s : string) :
  one_line (String c s) <-> Ascii.eqb c Text.newline = false /\ one_line s.
Proof.
  unfold one_line. rewrite split_cons.
  destruct (Ascii.eqb c Text.newline).
  - split; [intros [=] | intros [[=] _]].
  - destruct (Text.split s) as [|l ls] eqn:Hs.
    + by apply split_nonempty in Hs.
    + split; [intros [= -> ->] | intros [_ [= -> ->]]]; done.
Qed.

Lemma one_line_append (a b : string) :
  one_line a -> one_line b -> one_line (a +:+ b).
Proof.
  intros Ha Hb. induction a as [|c a IH]; [done |].
  rewrite append_cons. apply one_line_cons in Ha as [Hc Ha].
  apply one_line_cons. auto.
Qed.

Lemma split_append_newline (a r : string) :
  one_line a -> Text.split (a +:+ String Text.newline r) = a :: Text.split r.
Proof.
  intros Ha. induction a as [|c a IH]; [done |].
  apply one_line_cons in Ha as [Hc Ha].
  rewrite append_cons, split_cons, Hc, IH by done. reflexivity.
Qed.

Lemma split_join (l : string) (ls : list string) :
  Forall one_line (l :: ls) ->
  Text.split (Text.join (String Text.newline "") (l :: ls)) = l :: ls.
Proof.
  revert l. induction ls as [|l' ls IH]; intros l Hall;
    inversion_clear Hall as [|? ? Hl Hls].
  - exact Hl.
  - rewrite join_cons2, append_cons, append_nil.
    rewrite split_append_newline by done. by rewrite IH.
Qed.

Lemma one_line_escape (c : ascii) : one_line (JSON.escape c).
Proof. destruct c as [[] [] [] [] [] [] [] []]; reflexivity. Qed.

Lemma one_line_escaped (s : string) : one_line (JSON.escaped s).
Proof.
  induction s as [|c s IH]; [done |].
  cbn [JSON.escaped]. auto using one_line_append, one_line_escape.
Qed.

Lemma one_line_quote (s : string) : one_line (JSON.quote s).
Proof.
  unfold JSON.quote. apply one_line_cons. split; [done |].
  apply one_line_append; [apply one_line_escaped | done].
Qed.

Lemma one_line_join (sep : string) (parts : list string) :
  one_line sep -> Forall one_line parts -> one_line (Text.join sep parts).
Proof.
  intros Hsep. induction 1 as [|p ps Hp Hps IH]; [done |].
  destruct ps as [|q ps]; [done |].
  rewrite join_cons2. auto using one_line_append.
Qed.

Create HintDb one_line.
#[local] Hint Resolve one_line_append one_line_quote one_line_join : one_line.

Lemma one_line_entityRecord (e : Entity) : one_line (JSON.stringify (entityRecord e)).
Proof.
  unfold entityRecord. cbn [JSON.stringify map fst snd Text.join].
  repeat (apply one_line_append); auto with one_line; try done.
  apply one_line_join; [done |].
  induction (observations e); constructor; [apply one_line_quote | done].
Qed.

Lemma one_line_relationRecord (r : Relation) : one_line (JSON.stringify (relationRecord r)).
Proof.
  unfold relationRecord. cbn [JSON.stringify map fst snd Text.join].
  repeat (apply one_line_append); auto with one_line; done.
Qed.

Lemma trimEnd_cons (c : ascii) (r : string) :
  Text.is_space c = false -> Text.trimEnd (String c r) <> "".
Proof. intros Hc. cbn [Text.trimEnd]. rewrite Hc. by destruct (Text.trimEnd r). Qed.

Lemma trim_cons (c : ascii) (r : string) :
  Text.is_space c = false -> Text.trim (String c r) <> "".
Proof.
  intros Hc. unfold Text.trim. cbn [Text.trimStart]. rewrite Hc.
  by apply trimEnd_cons.
Qed.

Lemma trim_record (ms : list (string * JSON.json)) :
  Text.trim (JSON.stringify (JSON.JObject ms)) <> "".
Proof. cbn [JSON.stringify]. rewrite append_cons. by apply trim_cons. Qed.

(** ** Decoding what [encode] wrote *)

Lemma mapM_asString (obs : list string) :
  mapM asString (map JSON.JString obs) = Some obs.
Proof.
  induction obs as [|o obs IH]; [done |].
  cbn [map mapM asString]. rewrite IH. reflexivity.
Qed.

Lemma asEntity_entityRecord (e : Entity) : asEntity (entityRecord e) = Some e.
Proof.
  destruct e as [n t obs]. unfold asEntity, entityRecord, field.
  cbn -[mapM]. rewrite mapM_asString. reflexivity.
Qed.

Lemma asRelation_relationRecord (r : Relation) : asRelation (relationRecord r) = Some r.
Proof. by destruct r. Qed.

Lemma decodeLine_entity (graph : KnowledgeGraph) (e : Entity) :
  decodeLine graph (JSON.stringify (entityRecord e)) =
  Returned {| entities := entities graph ++ [e]; relations := relations graph |}.
Proof.
  unfold decodeLine. rewrite parse_entityRecord.
  unfold cast. rewrite asEntity_entityRecord. reflexivity.
Qed.

Lemma decodeLine_relation (graph : KnowledgeGraph) (r : Relation) :
  decodeLine graph (JSON.stringify (relationRecord r)) =
  Returned {| entities := entities graph; relations := relations graph ++ [r] |}.
Proof.
  unfold decodeLine. rewrite parse_relationRecord.
  unfold cast. rewrite asRelation_relationRecord. reflexivity.
Qed.

Lemma reduce_relations (rs : list Relation) (graph : KnowledgeGraph) :
  reduce decodeLine (map (fun r => JSON.stringify (relationRecord r)) rs) graph =
  Returned {| entities := entities graph; relations := relations graph ++ rs |}.
Proof.
  revert graph. induction rs as [|r rs IH]; intros graph.
  - destruct graph. cbn. by rewrite app_nil_r.
  - cbn [map reduce]. rewrite decodeLine_relation.
    cbn [mbind result_bind]. rewrite IH. cbn [entities relations].
    by rewrite <- app_assoc.
Qed.

Lemma reduce_lines (es : list Entity) (rs : list Relation) (graph : KnowledgeGraph) :
  reduce decodeLine
    (map (fun e => JSON.stringify (entityRecord e)) es ++
     map (fun r => JSON.stringify (relationRecord r)) rs) graph =
  Returned {| entities := entities graph ++ es; relations := relations graph ++ rs |}.
Proof.
  revert graph. induction es as [|e es IH]; intros graph.
  - cbn [map app]. rewrite reduce_relations. by rewrite app_nil_r.
  - cbn [map app reduce]. rewrite decodeLine_entity.
    cbn [mbind result_bind]. rewrite IH. cbn [entities relations].
    by rewrite <- app_assoc.
Qed.

Lemma lines_one_line (es : list Entity) (rs : list Relation) :
  Forall one_line
    (map (fun e => JSON.stringify (entityRecord e)) es ++
     map (fun r => JSON.stringify (relationRecord r)) rs).
Proof.
  apply Forall_app. split; apply Forall_map, Forall_true; intros x.
  - apply one_line_entityRecord.
  - apply one_line_relationRecord.
Qed.

Lemma lines_nonblank (es : list Entity) (rs : list Relation) :
  Forall (fun line => Text.trim line <> "")
    (map (fun e => JSON.stringify (entityRecord e)) es ++
     map (fun r => JSON.stringify (relationRecord r)) rs).
Proof.
  apply Forall_app. split; apply Forall_map, Forall_true; intros x; apply trim_record.
Qed.

Lemma filter_all {A : Type} (P : A -> Prop) `{forall x, Decision (P x)} (l : list A) :
  Forall P l -> filter P l = l.
Proof.
  induction 1 as [|x l Hx Hl IH]; [done |].
  rewrite filter_cons_True by done. by rewrite IH.
Qed.

Lemma decode_encode (graph : KnowledgeGraph) : decode (encode graph) = Returned graph.
Proof.
  destruct graph as [es rs]. unfold decode, encode. cbn [entities relations].
  pose proof (lines_one_line es rs) as Hone.
  pose proof (lines_nonblank es rs) as Hblank.
  pose proof (reduce_lines es rs emptyGraph) as Hred.
  destruct (map _ es ++ map _ rs) as [|l ls] eqn:Hlines.
  - apply app_eq_nil in Hlines as [He Hr].
    apply map_eq_nil in He, Hr. by subst.
  - rewrite split_join by done. rewrite filter_all by done. exact Hred.
Qed.

(** ** Running the operations *)

Lemma bind_run {A B : Type} (m : M A) (f : A -> M B) (s : store) :
  (m ≫= f) s =
  match m s with
  | (Returned a, s') => f a s'
  | (Thrown e, s') => (Thrown e, s')
  end.
Proof. reflexivity. Qed.

Lemma loadGraph_store (s : store) : (loadGraph s).2 = s.
Proof.
  unfold loadGraph, try_catch. rewrite bind_run.
  destruct s as [|data|code|[data|] code torn]; cbn.
  - done.
  - unfold lift. destruct (decode data) as [g|[]]; cbn; try done.
    by case_decide.
  - by case_decide.
  - unfold lift. destruct (decode data) as [g|[]]; cbn; try done.
    by case_decide.
  - done.
Qed.

Lemma loadGraph_run (s : store) (graph : KnowledgeGraph) :
  (loadGraph s).1 = Returned graph -> loadGraph s = (Returned graph, s).
Proof.
  intros H. pose proof (loadGraph_store s) as Hs.
  destruct (loadGraph s) as [r s']. cbn in *. by subst.
Qed.

Lemma loadGraph_Stored (data : string) (graph : KnowledgeGraph) :
  decode data = Returned graph ->
  loadGraph (Stored data) = (Returned graph, Stored data).
Proof.
  intros H. unfold loadGraph, try_catch. rewrite bind_run. cbn. unfold lift.
  by rewrite H.
Qed.

Lemma loadGraph_encode (graph : KnowledgeGraph) :
  loadGraph (Stored (encode graph)) = (Returned graph, Stored (encode graph)).
Proof. apply loadGraph_Stored, decode_encode. Qed.

Lemma saveGraph_run (graph : KnowledgeGraph) (s : store) :
  saveGraph graph s =
  match s with
  | Failing code => (Thrown (SystemError code), s)
  | Brittle _ code torn => (Thrown (SystemError code), Brittle torn code torn)
  | Missing | Stored _ => (Returned tt, Stored (encode graph))
  end.
Proof. by destruct s. Qed.

Lemma saveGraph_Returned (graph : KnowledgeGraph) (s s' : store) (u : unit) :
  saveGraph graph s = (Returned u, s') -> s' = Stored (encode graph).
Proof. rewrite saveGraph_run. destruct s; congruence. Qed.

(** What a call that saves [graph'] and returns [x] leaves behind. *)
Lemma saved_graph {A : Type} (graph' : KnowledgeGraph) (x a : A) (s s' : store) :
  (_ ← saveGraph graph'; mret x) s = (Returned a, s') ->
  a = x /\ loadGraph s' = (Returned graph', s').
Proof.
  rewrite bind_run. destruct (saveGraph graph' s) as [[u|e] s1] eqn:Hsave; [|done].
  apply saveGraph_Returned in Hsave as ->. intros [= <- <-].
  split; [done | apply loadGraph_encode].
Qed.

Lemma read_Returned {A : Type} (f : KnowledgeGraph -> A) (s : store) (a : A) :
  ((graph ← loadGraph; mret (f graph)) s).1 = Returned a ->
  exists graph, (loadGraph s).1 = Returned graph /\ a = f graph.
Proof.
  rewrite bind_run. destruct (loadGraph s) as [[graph|e] s0]; [| done].
  cbn. intros [= <-]. eauto.
Qed.

Lemma sameTriple_triple (a b : Relation) : sameTriple a b <-> triple a = triple b.
Proof. unfold sameTriple, triple. split; [intros (-> & -> & ->) | intros [=]]; done. Qed.

Lemma new_entity_iff (es : list Entity) (e : Entity) :
  ~ Exists (fun existingEntity => name existingEntity = name e) es <->
  name e ∉ name <$> es.
Proof.
  rewrite Exists_exists, list_elem_of_fmap.
  split; intros H (x & H1 & H2); apply H; exists x; split; congruence || done.
Qed.

Lemma new_relation_iff (rs : list Relation) (r : Relation) :
  ~ Exists (fun existingRelation => sameTriple existingRelation r) rs <->
  triple r ∉ triple <$> rs.
Proof.
  rewrite Exists_exists, list_elem_of_fmap.
  split; intros H (x & H1 & H2); apply H; exists x.
  - split; [done |]. by apply sameTriple_triple.
  - split; [| done]. symmetry. by apply sameTriple_triple.
Qed.

(** Keys stay distinct when fresh items with distinct keys are appended. *)
Lemma NoDup_append_fresh {A K : Type} `{EqDecision K} (key : A -> K) (old new : list A) :
  NoDup (key <$> old) ->
  NoDup (key <$> filter (fun x => key x ∉ key <$> old) new) ->
  NoDup (key <$> (old ++ filter (fun x => key x ∉ key <$> old) new)).
Proof.
  intros Hold Hnew. rewrite fmap_app. apply NoDup_app. split_and!; [done | | done].
  intros k Hk (x & -> & Hx)%list_elem_of_fmap.
  apply list_elem_of_filter in Hx as [Hfresh _]. done.
Qed.

Lemma between_relations (filteredEntities : list Entity) (graph : KnowledgeGraph)
    (r : Relation) :
  r ∈ relations (between filteredEntities graph) <->
  (r ∈ relations graph) /\
  (from r ∈ name <$> filteredEntities) /\ (to r ∈ name <$> filteredEntities).
Proof.
  unfold between. cbn [relations].
  rewrite list_elem_of_filter, !elem_of_list_to_set. tauto.
Qed.

Lemma matches_empty (e : Entity) : matches "" e = true.
Proof. unfold matches. cbn. by destruct (Text.toLowerCase (name e)). Qed.

Lemma addObservation_names (ents ents' : list Entity) (o : Addition.t) (a : Added.t) :
  addObservation ents o = Returned (a, ents') -> name <$> ents' = name <$> ents.
Proof.
  unfold addObservation.
  destruct (list_find _ ents) as [[i entity]|] eqn:Hfind; [| done].
  intros [= _ <-]. apply list_find_Some in Hfind as (Hi & _ & _).
  rewrite list_fmap_insert. cbn [name]. apply list_insert_id.
  by rewrite list_lookup_fmap, Hi.
Qed.

Lemma addAll_unknown (items : list Addition.t) (ents : list Entity) :
  Exists (fun o => Addition.entityName o ∉ name <$> ents) items ->
  exists n, (n ∉ name <$> ents) /\ (n ∈ Addition.entityName <$> items) /\
            addAll items ents = Thrown (NotFound n).
Proof.
  revert ents. induction items as [|o items IH]; intros ents Hex.
  - inversion Hex.
  - cbn [addAll].
    destruct (addObservation ents o) as [[added ents1]|e] eqn:Hadd.
    + pose proof (addObservation_names _ _ _ _ Hadd) as Hnames.
      apply Exists_cons in Hex as [Ho | Hitems].
      * exfalso. unfold addObservation in Hadd.
        destruct (list_find _ ents) as [[i entity]|] eqn:Hfind; [| done].
        apply list_find_Some in Hfind as (Hi & Hname & _).
        apply Ho. rewrite <- Hname. apply list_elem_of_fmap.
        exists entity. split; [done |]. by eapply list_elem_of_lookup_2.
      * rewrite <- Hnames in Hitems. destruct (IH ents1 Hitems) as (n & Hn & Hin & Hall).
        exists n. rewrite <- Hnames. split_and!; [done | |].
        -- rewrite fmap_cons. by right.
        -- cbn [mbind result_bind]. by rewrite Hall.
    + unfold addObservation in Hadd.
      destruct (list_find _ ents) as [[i entity]|] eqn:Hfind; [done |].
      injection Hadd as <-. exists (Addition.entityName o). split_and!; [| | done].
      * apply list_find_None in Hfind. rewrite Forall_forall in Hfind.
        intros (x & Hx & Hin)%list_elem_of_fmap. by apply (Hfind x).
      * rewrite fmap_cons. by left.
Qed.

Lemma grown_refl (ents : list Entity) : grown ents ents.
Proof. apply Forall_Forall2_diag, Forall_true. intros e. split; [done | set_solver]. Qed.

Lemma grown_find (ents0 ents : list Entity) (n : string) (i : nat) (e : Entity) :
  grown ents0 ents ->
  list_find (fun e => name e = n) ents = Some (i, e) ->
  exists e0, list_find (fun e => name e = n) ents0 = Some (i, e0) /\
             ents0 !! i = Some e0 /\
             observations e0 ⊆ observations e.
Proof.
  intros Hgrown. revert i. induction Hgrown as [|e0' e' ents0 ents [Hn Hobs] Hrest IH];
    intros i Hfind; [done |].
  cbn [list_find] in Hfind |- *. rewrite Hn.
  destruct (decide (name e' = n)) as [Heq|Hne].
  - injection Hfind as <- <-. eauto.
  - destruct (list_find _ ents) as [[j x]|] eqn:Hf; [| done].
    cbn in Hfind. injection Hfind as <- <-.
    destruct (IH j eq_refl) as (e0 & -> & Hi & Hsub). cbn. eauto.
Qed.

Lemma addObservation_tidy (ents0 ents ents' : list Entity) (o : Addition.t) (a : Added.t) :
  grown ents0 ents -> tidy ents -> fresh_once ents0 o ->
  addObservation ents o = Returned (a, ents') ->
  grown ents0 ents' /\ tidy ents'.
Proof.
  intros Hgrown Htidy Hfresh. unfold addObservation.
  destruct (list_find _ ents) as [[i e]|] eqn:Hfind; [| done].
  intros [= _ <-].
  destruct (grown_find _ _ _ _ _ Hgrown Hfind) as (e0 & Hfind0 & Hi0 & Hsub).
  apply list_find_Some in Hfind as (Hi & _ & _).
  unfold fresh_once in Hfresh. rewrite Hfind0 in Hfresh.
  set (news := filter (fun content => content ∉ observations e) (Addition.contents o)).
  assert (NoDup news) as Hnews.
  { replace news with
      (filter (fun content => content ∉ observations e)
         (filter (fun content => content ∉ observations e0) (Addition.contents o))).
    - by apply NoDup_filter.
    - rewrite list_filter_filter. apply list_filter_iff. intros c.
      split; [tauto |]. intros Hc. split; [done |]. intros Hc0. by apply Hc, Hsub. }
  split.
  - rewrite <- (list_insert_id ents0 i e0) by done.
    apply Forall2_insert; [done |]. cbn. split.
    + apply (Forall2_lookup_lr _ _ _ _ _ _ Hgrown Hi0 Hi).
    + intros c Hc. apply elem_of_app. left. by apply Hsub.
  - apply Forall_insert; [done |]. cbn [observations].
    apply NoDup_app. split_and!; [| | done].
    + by eapply (Forall_lookup_1 _ _ _ _ Htidy).
    + intros c Hc Hin. by apply list_elem_of_filter in Hin as [Hnot _].
Qed.

Lemma addAll_tidy (ents0 : list Entity) (items : list Addition.t)
    (ents ents' : list Entity) (results : list Added.t) :
  grown ents0 ents -> tidy ents -> Forall (fresh_once ents0) items ->
  addAll items ents = Returned (results, ents') -> tidy ents'.
Proof.
  revert ents results. induction items as [|o items IH];
    intros ents results Hgrown Htidy Hitems; cbn [addAll].
  - by intros [= _ <-].
  - inversion_clear Hitems as [|? ? Ho Hrest].
    destruct (addObservation ents o) as [[added ents1]|e] eqn:Hadd; [| done].
    destruct (addObservation_tidy _ _ _ _ _ Hgrown Htidy Ho Hadd) as [Hgrown1 Htidy1].
    cbn [mbind result_bind].
    destruct (addAll items ents1) as [[results' ents2]|e] eqn:Hall; [| done].
    intros [= _ <-]. by eapply IH.
Qed.

(** The operations on a file from which [loadGraph] returns [graph]. *)
Section Loaded.

Variables (s : store) (graph : KnowledgeGraph).
Hypothesis Hload : (loadGraph s).1 = Returned graph.

Let Hrun : loadGraph s = (Returned graph, s) := loadGraph_run s graph Hload.

Lemma createEntities_run (candidates created : list Entity) (s' : store) :
  createEntities candidates s = (Returned created, s') ->
  created = filter (fun e => name e ∉ name <$> entities graph) candidates /\
  loadGraph s' = (Returned {| entities := entities graph ++ created;
                              relations := relations graph |}, s').
Proof.
  unfold createEntities. rewrite bind_run, Hrun. intros [-> Hsaved]%saved_graph.
  rewrite Hsaved. split; [| done].
  apply list_filter_iff, new_entity_iff.
Qed.

Lemma createRelations_run (candidates created : list Relation) (s' : store) :
  createRelations candidates s = (Returned created, s') ->
  created = filter (fun r => triple r ∉ triple <$> relations graph) candidates /\
  loadGraph s' = (Returned {| entities := entities graph;
                              relations := relations graph ++ created |}, s').
Proof.
  unfold createRelations. rewrite bind_run, Hrun. intros [-> Hsaved]%saved_graph.
  rewrite Hsaved. split; [| done].
  apply list_filter_iff, new_relation_iff.
Qed.

Lemma addObservations_run (items : list Addition.t) (results : list Added.t)
    (s' : store) :
  addObservations items s = (Returned results, s') ->
  exists ents,
    addAll items (entities graph) = Returned (results, ents) /\
    loadGraph s' = (Returned {| entities := ents; relations := relations graph |}, s').
Proof.
  unfold addObservations. rewrite bind_run, Hrun, bind_run. unfold lift.
  destruct (addAll items (entities graph)) as [[results' ents]|e]; [| done].
  intros [-> Hsaved]%saved_graph. eauto.
Qed.

Lemma deleteEntities_run (entityNames : list string) (s' : store) (u : unit) :
  deleteEntities entityNames s = (Returned u, s') ->
  loadGraph s' =
  (Returned
     {| entities := filter (fun e => name e ∉ entityNames) (entities graph);
        relations := filter (fun r => (from r ∉ entityNames) /\ (to r ∉ entityNames))
                            (relations graph) |}, s').
Proof.
  unfold deleteEntities. rewrite bind_run, Hrun. intros ->%saveGraph_Returned.
  apply loadGraph_encode.
Qed.

Lemma searchNodes_run (query : string) :
  searchNodes query s =
  (Returned (between (filter (fun e => matches query e) (entities graph)) graph), s).
Proof. unfold searchNodes. by rewrite bind_run, Hrun. Qed.

Lemma openNodes_run (names : list string) :
  openNodes names s =
  (Returned (between (filter (fun e => name e ∈ names) (entities graph)) graph), s).
Proof. unfold openNodes. by rewrite bind_run, Hrun. Qed.

End Loaded.

(** ** The model on concrete inputs *)

Example parse_nested :
  JSON.parse " [1, [true ,null], {}, -2.5e+3 ] " =
  Some (JSON.JArray [JSON.JNumber "1";
                     JSON.JArray [JSON.JBool true; JSON.JNull];
                     JSON.JObject []; JSON.JNumber "-2.5e+3"]).
Proof. reflexivity. Qed.

Example parse_trailing_comma : JSON.parse "[1,]" = None.
Proof. reflexivity. Qed.

Example parse_leading_zero : JSON.parse "01" = None.
Proof. reflexivity. Qed.

Example escape_line_feed : JSON.escape Text.newline = "\n".
Proof. reflexivity. Qed.

Example split_blank_lines :
  Text.split (String "a" (String Text.newline (String Text.newline "b"))) = ["a"; ""; "b"].
Proof. reflexivity. Qed.

Example decode_null_line : decode "null" = Thrown TypeError.
Proof. reflexivity. Qed.

Example decode_other_discriminant : decode "[] " = Returned emptyGraph.
Proof. reflexivity. Qed.

Example load_acquainted :
  loadGraph acquainted =
  (Returned {| entities := [alice; bob]; relations := [knows] |}, acquainted).
Proof. vm_compute. reflexivity. Qed.

Example search_ignores_case :
  (searchNodes "coffee" acquainted).1 =
    Returned {| entities := [alice]; relations := [] |} /\
  (searchNodes "ALICE" acquainted).1 =
    Returned {| entities := [alice]; relations := [] |}.
Proof. split; vm_compute; reflexivity. Qed.

Example create_twice :
  (createEntities [alice; bob] Missing).1 = Returned [alice; bob] /\
  (createEntities [alice; bob] (createEntities [alice; bob] Missing).2)
  = (Returned [], (createEntities [alice; bob] Missing).2).
Proof. split; vm_compute; reflexivity. Qed.

Example failed_write_tears :
  createEntities [carol] worn =
  (Thrown (SystemError "ENOSPC"), Brittle (Some "") "ENOSPC" (Some "")).
Proof. vm_compute. reflexivity. Qed.

Example decode_escape_beyond :
  decode "{\u0141}" = Thrown (Unread "{\u0141}") /\
  decode "{\u0041}" = Thrown SyntaxError.
Proof. split; reflexivity. Qed.

Example create_needs_exact_object :
  (callTool "create_entities"
     (Some [("entities",
             JSON.JArray
               [JSON.JObject [("entityType", JSON.JString "Person");
                              ("name", JSON.JString "Bob");
                              ("observations", JSON.JArray [])]])])
     acquainted).1 = Failed Unfit.
Proof. vm_compute. reflexivity. Qed.

Example read_needs_canonical_file :
  (callTool "read_graph" (Some []) (Stored (encode emptyGraph +:+ " "))).1 = Failed Unfit /\
  (callTool "read_graph" (Some []) Missing).1 =
    Replied (textReply (pretty (graphObject emptyGraph))).
Proof. split; vm_compute; reflexivity. Qed.

(** ** Properties of the store *)

(** C1, as amended.  From a graph whose entity names are pairwise distinct, a
    call of [createEntities] that completes stores a graph whose entity names
    are pairwise distinct, provided the candidates whose names the loaded
    graph does not hold have pairwise distinct names. *)
Theorem createEntities_names_distinct (candidates created : list Entity)
    (s s' : store) (graph : KnowledgeGraph) :
  (loadGraph s).1 = Returned graph ->
  NoDup (name <$> entities graph) ->
  NoDup (name <$> filter (fun e => name e ∉ name <$> entities graph) candidates) ->
  createEntities candidates s = (Returned created, s') ->
  exists graph', loadGraph s' = (Returned graph', s') /\
                 NoDup (name <$> entities graph').
Proof.
  intros Hload Hold Hnew [-> Hstored]%(createEntities_run s graph Hload).
  eexists. split; [exact Hstored |]. cbn [entities].
  by apply NoDup_append_fresh.
Qed.

Lemma createEntities_names_distinct_witness :
  exists graph', loadGraph (snd (createEntities [bob; carol; dave] acquainted)) =
                   (Returned graph', snd (createEntities [bob; carol; dave] acquainted)) /\
                 NoDup (name <$> entities graph').
Proof.
  apply (createEntities_names_distinct [bob; carol; dave] [carol; dave] acquainted _
           {| entities := [alice; bob]; relations := [knows] |}).
  - vm_compute. reflexivity.
  - cbn. repeat constructor; compute_done.
  - rewrite filter_cons_False by (intros H; apply H; compute_done).
    rewrite !filter_cons_True by compute_done.
    cbn. repeat constructor; compute_done.
  - vm_compute. reflexivity.
Defined.

(** C1, as stated, fails: from the absent file, a batch holding the same
    new candidate twice stores both. *)
Lemma createEntities_twin_candidates :
  ~ (forall (candidates created : list Entity) (s s' : store) (graph : KnowledgeGraph),
       (loadGraph s).1 = Returned graph ->
       NoDup (name <$> entities graph) ->
       createEntities candidates s = (Returned created, s') ->
       exists graph', loadGraph s' = (Returned graph', s') /\
                      NoDup (name <$> entities graph')).
Proof.
  intros H.
  destruct (H [alice; alice] [alice; alice] Missing
              (snd (createEntities [alice; alice] Missing)) emptyGraph)
    as (graph' & Hload & Hnodup).
  - reflexivity.
  - constructor.
  - vm_compute. reflexivity.
  - vm_compute in Hload. injection Hload as <-.
    cbn in Hnodup. apply NoDup_cons in Hnodup as [Hin _].
    apply Hin. left.
Qed.

(** C2.  When some item of the batch names an entity that the loaded graph
    does not hold, [addObservations] throws the not-found error for such a
    name and leaves the file as it was: [saveGraph] is not reached, and what
    earlier items added in memory is not written. *)
Theorem addObservations_unknown_entity (items : list Addition.t) (s : store)
    (graph : KnowledgeGraph) :
  (loadGraph s).1 = Returned graph ->
  Exists (fun o => Addition.entityName o ∉ name <$> entities graph) items ->
  exists n, (n ∉ name <$> entities graph) /\
            (n ∈ Addition.entityName <$> items) /\
            addObservations items s = (Thrown (NotFound n), s).
Proof.
  intros Hload%loadGraph_run (n & Hn & Hin & Hall)%addAll_unknown.
  exists n. split_and!; [done | done |].
  unfold addObservations. rewrite bind_run, Hload, bind_run.
  unfold lift. by rewrite Hall.
Qed.

Lemma addObservations_unknown_entity_witness :
  exists n, (n ∉ name <$> [alice; bob]) /\
            (n ∈ Addition.entityName <$> carol_unknown) /\
            addObservations carol_unknown acquainted = (Thrown (NotFound n), acquainted).
Proof.
  apply (addObservations_unknown_entity carol_unknown acquainted
           {| entities := [alice; bob]; relations := [knows] |}).
  - vm_compute. reflexivity.
  - apply Exists_cons. right. apply Exists_cons. left.
    cbn. compute_done.
Defined.

(** C3, as amended.  From a graph none of whose observation lists holds a
    string twice, a call of [addObservations] that completes stores such a
    graph again, also when contents list strings the entity already holds,
    provided no contents array lists twice a string that its entity does not
    hold in the loaded graph. *)
Theorem addObservations_no_duplicates (items : list Addition.t) (results : list Added.t)
    (s s' : store) (graph : KnowledgeGraph) :
  (loadGraph s).1 = Returned graph ->
  tidy (entities graph) ->
  Forall (fresh_once (entities graph)) items ->
  addObservations items s = (Returned results, s') ->
  exists graph', loadGraph s' = (Returned graph', s') /\ tidy (entities graph').
Proof.
  intros Hload Htidy Hitems (ents & Hall & Hstored)%(addObservations_run s graph Hload).
  eexists. split; [exact Hstored |]. cbn [entities].
  eapply addAll_tidy; [apply grown_refl | done | done | exact Hall].
Qed.

Lemma addObservations_no_duplicates_witness :
  exists graph',
    loadGraph (snd (addObservations coffee_twice acquainted)) =
      (Returned graph', snd (addObservations coffee_twice acquainted)) /\
    tidy (entities graph').
Proof.
  apply (addObservations_no_duplicates coffee_twice
           [ {| Added.entityName := "Alice"; Added.addedObservations := ["Drinks tea"] |};
             {| Added.entityName := "Alice"; Added.addedObservations := [] |} ]
           acquainted _ {| entities := [alice; bob]; relations := [knows] |}).
  - vm_compute. reflexivity.
  - unfold tidy. cbn. repeat constructor; compute_done.
  - repeat constructor; unfold fresh_once; cbn; compute_done.
  - vm_compute. reflexivity.
Defined.

(** C3, as stated, fails: a contents array listing the same new string
    twice has it stored twice. *)
Lemma addObservations_twin_contents :
  ~ (forall (items : list Addition.t) (results : list Added.t) (s s' : store)
            (graph : KnowledgeGraph),
       (loadGraph s).1 = Returned graph ->
       tidy (entities graph) ->
       addObservations items s = (Returned results, s') ->
       exists graph', loadGraph s' = (Returned graph', s') /\ tidy (entities graph')).
Proof.
  intros H.
  destruct (H tea_twice
              [ {| Added.entityName := "Alice";
                   Added.addedObservations := ["Drinks tea"; "Drinks tea"] |} ]
              acquainted (snd (addObservations tea_twice acquainted))
              {| entities := [alice; bob]; relations := [knows] |})
    as (graph' & Hload & Htidy).
  - vm_compute. reflexivity.
  - unfold tidy. cbn. repeat constructor; compute_done.
  - vm_compute. reflexivity.
  - vm_compute in Hload. injection Hload as <-.
    cbn in Htidy. apply Forall_cons in Htidy as [Hdup _]. cbn in Hdup.
    apply NoDup_cons in Hdup as [_ Hdup]. apply NoDup_cons in Hdup as [Hin _].
    apply Hin. left.
Qed.

(** C4, as amended.  From a graph whose relation triples are pairwise
    distinct, a call of [createRelations] that completes stores a graph whose
    relation triples are pairwise distinct, provided the candidates whose
    triples the loaded graph does not hold have pairwise distinct triples. *)
Theorem createRelations_triples_distinct (candidates created : list Relation)
    (s s' : store) (graph : KnowledgeGraph) :
  (loadGraph s).1 = Returned graph ->
  NoDup (triple <$> relations graph) ->
  NoDup (triple <$> filter (fun r => triple r ∉ triple <$> relations graph) candidates) ->
  createRelations candidates s = (Returned created, s') ->
  exists graph', loadGraph s' = (Returned graph', s') /\
                 NoDup (triple <$> relations graph').
Proof.
  intros Hload Hold Hnew [-> Hstored]%(createRelations_run s graph Hload).
  eexists. split; [exact Hstored |]. cbn [relations].
  by apply NoDup_append_fresh.
Qed.

Lemma createRelations_triples_distinct_witness :
  exists graph',
    loadGraph (snd (createRelations [admires; knows_back; admires_back] befriended)) =
      (Returned graph',
       snd (createRelations [admires; knows_back; admires_back] befriended)) /\
    NoDup (triple <$> relations graph').
Proof.
  apply (createRelations_triples_distinct [admires; knows_back; admires_back]
           [knows_back; admires_back] befriended _
           {| entities := [alice; bob]; relations := [knows; admires] |}).
  - vm_compute. reflexivity.
  - cbn. repeat constructor; compute_done.
  - rewrite filter_cons_False by (intros H; apply H; compute_done).
    rewrite !filter_cons_True by compute_done.
    cbn. repeat constructor; compute_done.
  - vm_compute. reflexivity.
Defined.

(** C4, as stated, fails: from the absent file, a batch holding the same
    new triple twice stores both. *)
Lemma createRelations_twin_candidates :
  ~ (forall (candidates created : list Relation) (s s' : store) (graph : KnowledgeGraph),
       (loadGraph s).1 = Returned graph ->
       NoDup (triple <$> relations graph) ->
       createRelations candidates s = (Returned created, s') ->
       exists graph', loadGraph s' = (Returned graph', s') /\
                      NoDup (triple <$> relations graph')).
Proof.
  intros H.
  destruct (H [knows; knows] [knows; knows] Missing
              (snd (createRelations [knows; knows] Missing)) emptyGraph)
    as (graph' & Hload & Hnodup).
  - reflexivity.
  - constructor.
  - vm_compute. reflexivity.
  - vm_compute in Hload. injection Hload as <-.
    cbn in Hnodup. apply NoDup_cons in Hnodup as [Hin _].
    apply Hin. left.
Qed.

(** C5.  Every relation in a result of [searchNodes] or of [openNodes] has
    its [from] and its [to] among the names of the entities of that result. *)
Theorem queries_induced (s : store) (query : string) (names : list string)
    (found opened : KnowledgeGraph) :
  (searchNodes query s).1 = Returned found ->
  (openNodes names s).1 = Returned opened ->
  induced found /\ induced opened.
Proof.
  intros (g1 & _ & ->)%read_Returned (g2 & _ & ->)%read_Returned.
  split; intros r Hr%between_relations; tauto.
Qed.

Lemma queries_induced_witness :
  induced (between (filter (fun e => matches "ali" e) [alice; bob])
                   {| entities := [alice; bob]; relations := [knows] |}) /\
  induced (between (filter (fun e => name e ∈ ["Bob"]) [alice; bob])
                   {| entities := [alice; bob]; relations := [knows] |}).
Proof.
  apply (queries_induced acquainted "ali" ["Bob"]).
  - vm_compute. reflexivity.
  - vm_compute. reflexivity.
Defined.

(** C6.  Decoding the text that encodes a graph gives that graph back, the
    entities and the relations field for field and in their order; so does
    [loadGraph] on a file that [saveGraph] wrote. *)
Theorem encode_decode_round_trip (graph : KnowledgeGraph) (s : store) :
  decode (encode graph) = Returned graph /\
  loadGraph (Stored (encode graph)) = (Returned graph, Stored (encode graph)) /\
  (saveGraph graph ≫= fun _ => loadGraph) s =
    match s with
    | Failing code => (Thrown (SystemError code), s)
    | Brittle _ code torn => (Thrown (SystemError code), Brittle torn code torn)
    | Missing | Stored _ => (Returned graph, Stored (encode graph))
    end.
Proof.
  split_and!.
  - apply decode_encode.
  - apply loadGraph_encode.
  - rewrite bind_run, saveGraph_run.
    destruct s; [apply loadGraph_encode | apply loadGraph_encode | done | done].
Qed.

(** C7.  After [deleteEntities], the stored graph holds exactly the entities
    of the loaded graph whose name is not listed, and exactly its relations
    whose [from] and [to] are both not listed. *)
Theorem deleteEntities_cascade (entityNames : list string) (s s' : store)
    (graph : KnowledgeGraph) :
  (loadGraph s).1 = Returned graph ->
  deleteEntities entityNames s = (Returned tt, s') ->
  exists graph',
    loadGraph s' = (Returned graph', s') /\
    (forall e, e ∈ entities graph' <-> (e ∈ entities graph) /\ (name e ∉ entityNames)) /\
    (forall r, r ∈ relations graph' <->
               (r ∈ relations graph) /\ (from r ∉ entityNames) /\ (to r ∉ entityNames)).
Proof.
  intros Hload Hrun. eexists. split; [by eapply deleteEntities_run |].
  cbn [entities relations].
  split; intros x; rewrite list_elem_of_filter; tauto.
Qed.

Lemma deleteEntities_cascade_witness :
  exists graph',
    loadGraph (snd (deleteEntities ["Bob"] acquainted)) =
      (Returned graph', snd (deleteEntities ["Bob"] acquainted)) /\
    (forall e, e ∈ entities graph' <->
               (e ∈ [alice; bob]) /\ (name e ∉ ["Bob"])) /\
    (forall r, r ∈ relations graph' <->
               (r ∈ [knows]) /\ (from r ∉ ["Bob"]) /\ (to r ∉ ["Bob"])).
Proof.
  apply (deleteEntities_cascade ["Bob"] acquainted _
           {| entities := [alice; bob]; relations := [knows] |}).
  - vm_compute. reflexivity.
  - vm_compute. reflexivity.
Defined.

(** C8.  When reading the file fails with a system error, [readGraph],
    [searchNodes] and [openNodes] return the empty graph if the code is
    [ENOENT], and otherwise throw that same error. *)
Theorem cold_start (s : store) (code : string) (query : string) (names : list string) :
  (readFile s).1 = Thrown (SystemError code) ->
  let outcome :=
    if decide (code = "ENOENT") then Returned emptyGraph
    else Thrown (SystemError code) in
  readGraph s = (outcome, s) /\
  searchNodes query s = (outcome, s) /\
  openNodes names s = (outcome, s).
Proof.
  intros Hread outcome.
  assert (loadGraph s = (outcome, s)) as Hload.
  { unfold loadGraph, try_catch. rewrite bind_run.
    destruct s as [|data|code'|[data|] code' torn]; cbn in Hread; [| done | | done |];
      injection Hread as <-; cbn; subst outcome; by case_decide. }
  unfold readGraph, searchNodes, openNodes. rewrite !bind_run, Hload.
  subst outcome. by case_decide.
Qed.

Lemma cold_start_witness :
  (readGraph Missing = (Returned emptyGraph, Missing) /\
   searchNodes "coffee" Missing = (Returned emptyGraph, Missing) /\
   openNodes ["Alice"] Missing = (Returned emptyGraph, Missing)) /\
  (readGraph (Failing "EACCES") = (Thrown (SystemError "EACCES"), Failing "EACCES") /\
   searchNodes "coffee" (Failing "EACCES")
     = (Thrown (SystemError "EACCES"), Failing "EACCES") /\
   openNodes ["Alice"] (Failing "EACCES")
     = (Thrown (SystemError "EACCES"), Failing "EACCES")).
Proof.
  split.
  - apply (cold_start Missing "ENOENT" "coffee" ["Alice"]). reflexivity.
  - apply (cold_start (Failing "EACCES") "EACCES" "coffee" ["Alice"]). reflexivity.
Defined.

(** C9.  [readGraph], [searchNodes] and [openNodes] leave the file as it
    was, whatever they return or throw. *)
Theorem reads_leave_store (s : store) (query : string) (names : list string) :
  (readGraph s).2 = s /\ (searchNodes query s).2 = s /\ (openNodes names s).2 = s.
Proof.
  pose proof (loadGraph_store s) as Hs.
  unfold readGraph, searchNodes, openNodes. rewrite !bind_run.
  destruct (loadGraph s) as [[graph|e] s0]; cbn in *; auto.
Qed.

(** C10.  With the empty query [searchNodes] returns every entity, and of
    the relations exactly those whose two endpoints name entities of the
    graph; a relation with a dangling endpoint is left out, while [readGraph]
    returns the whole graph, that relation included. *)
Theorem searchNodes_empty_query (s : store) (graph : KnowledgeGraph) :
  (loadGraph s).1 = Returned graph ->
  exists found,
    searchNodes "" s = (Returned found, s) /\
    readGraph s = (Returned graph, s) /\
    entities found = entities graph /\
    (forall r, r ∈ relations found <->
               (r ∈ relations graph) /\
               (from r ∈ name <$> entities graph) /\ (to r ∈ name <$> entities graph)) /\
    (forall r, r ∈ relations graph ->
               (from r ∉ name <$> entities graph) \/ (to r ∉ name <$> entities graph) ->
               r ∉ relations found).
Proof.
  intros Hload. eexists. split; [by apply searchNodes_run |].
  split; [by apply loadGraph_run |].
  assert (filter (fun e => matches "" e) (entities graph) = entities graph) as ->.
  { apply filter_all, Forall_forall. intros e _. by rewrite matches_empty. }
  split; [done |]. split.
  - intros r. apply between_relations.
  - intros r _ Hdangling Hr%between_relations. tauto.
Qed.

Lemma searchNodes_empty_query_witness :
  exists found,
    searchNodes "" dangling = (Returned found, dangling) /\
    readGraph dangling =
      (Returned {| entities := [alice]; relations := [knows] |}, dangling) /\
    entities found = [alice] /\
    (forall r, r ∈ relations found <->
               (r ∈ [knows]) /\
               (from r ∈ name <$> [alice]) /\ (to r ∈ name <$> [alice])) /\
    (forall r, r ∈ [knows] ->
               (from r ∉ name <$> [alice]) \/ (to r ∉ name <$> [alice]) ->
               r ∉ relations found).
Proof.
  apply (searchNodes_empty_query dangling
           {| entities := [alice]; relations := [knows] |}).
  vm_compute. reflexivity.
Defined.

(** ** Further properties of the store *)

Lemma load_then_thrown {A : Type} (f : KnowledgeGraph -> M A) (s : store) (e : error) :
  (loadGraph s).1 = Thrown e -> (loadGraph ≫= f) s = (Thrown e, s).
Proof.
  intros H. pose proof (loadGraph_store s) as Hs. rewrite bind_run.
  destruct (loadGraph s) as [[g|e'] s0]; cbn in *; congruence.
Qed.

Lemma save_then_thrown {A : Type} (graph' : KnowledgeGraph) (x : A)
    (s s' : store) (e : error) :
  (_ ← saveGraph graph'; mret x) s = (Thrown e, s') ->
  saveGraph graph' s = (Thrown e, s').
Proof.
  rewrite bind_run. destruct (saveGraph graph' s) as [[u|e0] s0].
  - unfold mret, M_ret. intros [=].
  - by intros [= -> ->].
Qed.

(** An operation that only decides, from the loaded graph, what to save
    or throw writes last. *)
Lemma writesLast_load_then {A : Type} (f : KnowledgeGraph -> M A) :
  (forall graph s e s', f graph s = (Thrown e, s') ->
     s' = s \/ exists graph', saveGraph graph' s = (Thrown e, s')) ->
  writesLast (loadGraph ≫= f).
Proof.
  intros Hf s e s' _. rewrite bind_run. pose proof (loadGraph_store s) as Hs.
  destruct (loadGraph s) as [[g|e0] s0] eqn:Hload; cbn in Hs; subst s0.
  - intros [Hs'|[graph' Hsave]]%Hf; [by left | right]. by exists g, graph'.
  - intros [= <- <-]. by left.
Qed.

Lemma writesLast_createEntities (candidates : list Entity) :
  writesLast (createEntities candidates).
Proof.
  apply writesLast_load_then. intros graph s e s' Hrun%save_then_thrown. eauto.
Qed.

Lemma writesLast_createRelations (candidates : list Relation) :
  writesLast (createRelations candidates).
Proof.
  apply writesLast_load_then. intros graph s e s' Hrun%save_then_thrown. eauto.
Qed.

Lemma writesLast_addObservations (items : list Addition.t) :
  writesLast (addObservations items).
Proof.
  apply writesLast_load_then. intros graph s e s'. rewrite bind_run. unfold lift.
  destruct (addAll items (entities graph)) as [[results ents]|e0].
  - intros Hrun%save_then_thrown. eauto.
  - intros [= <- <-]. by left.
Qed.

Lemma writesLast_deleteEntities (entityNames : list string) :
  writesLast (deleteEntities entityNames).
Proof. apply writesLast_load_then. intros graph s e s' Hrun. eauto. Qed.

Lemma writesLast_deleteObservations (deletions : list Deletion.t) :
  writesLast (deleteObservations deletions).
Proof. apply writesLast_load_then. intros graph s e s' Hrun. eauto. Qed.

Lemma writesLast_deleteRelations (doomed : list Relation) :
  writesLast (deleteRelations doomed).
Proof. apply writesLast_load_then. intros graph s e s' Hrun. eauto. Qed.

(** A read operation leaves the file as it found it, whatever it returns
    or throws. *)
Lemma query_store {A : Type} (f : KnowledgeGraph -> A) (s : store) :
  ((graph ← loadGraph; mret (f graph)) s).2 = s.
Proof.
  rewrite bind_run. pose proof (loadGraph_store s) as Hs.
  by destruct (loadGraph s) as [[g|e] s0].
Qed.

Lemma writesLast_of_store {A : Type} (m : M A) :
  (forall s, (m s).2 = s) -> writesLast m.
Proof. intros Hm s e s' _ Hrun. specialize (Hm s). rewrite Hrun in Hm. by left. Qed.

(** What [saveGraph] throws is a system error. *)
Lemma saveGraph_Thrown (graph : KnowledgeGraph) (s s' : store) (e : error) :
  saveGraph graph s = (Thrown e, s') -> ~ writable s /\ exists code, e = SystemError code.
Proof.
  rewrite saveGraph_run. destruct s; intros [= <- <-]; split; eauto.
Qed.

(** X1.  Every operation of the manager writes last: a call that throws
    has left the file as it found it, unless the graph had loaded and the
    error is the one that [saveGraph] throws on the file, which then is
    as the failed write left it. *)
Theorem operations_write_last :
  (forall candidates, writesLast (createEntities candidates)) /\
  (forall candidates, writesLast (createRelations candidates)) /\
  (forall items, writesLast (addObservations items)) /\
  (forall entityNames, writesLast (deleteEntities entityNames)) /\
  (forall deletions, writesLast (deleteObservations deletions)) /\
  (forall doomed, writesLast (deleteRelations doomed)) /\
  writesLast readGraph /\
  (forall query, writesLast (searchNodes query)) /\
  (forall names, writesLast (openNodes names)).
Proof.
  split_and!; intros.
  - apply writesLast_createEntities.
  - apply writesLast_createRelations.
  - apply writesLast_addObservations.
  - apply writesLast_deleteEntities.
  - apply writesLast_deleteObservations.
  - apply writesLast_deleteRelations.
  - apply writesLast_of_store, loadGraph_store.
  - apply writesLast_of_store. intros s. apply query_store.
  - apply writesLast_of_store. intros s. apply query_store.
Qed.

Lemma operations_write_last_witness :
  (addObservations carol_unknown acquainted).1 = Thrown (NotFound "Carol") /\
  (addObservations carol_unknown acquainted).2 = acquainted.
Proof.
  split; [vm_compute; reflexivity |].
  destruct (addObservations carol_unknown acquainted) as [r s'] eqn:Hrun.
  assert (r = Thrown (NotFound "Carol")) as ->.
  { change r with (r, s').1. rewrite <- Hrun. vm_compute. reflexivity. }
  destruct (proj1 (proj2 (proj2 operations_write_last)) carol_unknown acquainted
              (NotFound "Carol") s' I Hrun) as [Hs|(graph & graph' & _ & Hsave)]; [exact Hs |].
  apply saveGraph_Thrown in Hsave as [_ [code Hcode]]. discriminate Hcode.
Defined.

(** X2.  When [loadGraph] throws an exception of the program on a file
    (the file cannot be read, a line of it is no JSON, or a line of it is
    [null]), each of the nine operations throws the same exception and
    leaves the file untouched. *)
Theorem load_failure_propagates (s : store) (e : error) :
  (loadGraph s).1 = Thrown e ->
  genuine e ->
  (forall candidates, createEntities candidates s = (Thrown e, s)) /\
  (forall candidates, createRelations candidates s = (Thrown e, s)) /\
  (forall items, addObservations items s = (Thrown e, s)) /\
  (forall entityNames, deleteEntities entityNames s = (Thrown e, s)) /\
  (forall deletions, deleteObservations deletions s = (Thrown e, s)) /\
  (forall doomed, deleteRelations doomed s = (Thrown e, s)) /\
  readGraph s = (Thrown e, s) /\
  (forall query, searchNodes query s = (Thrown e, s)) /\
  (forall names, openNodes names s = (Thrown e, s)).
Proof.
  intros H _. split_and!; intros; try by apply load_then_thrown.
  unfold readGraph. pose proof (loadGraph_store s) as Hs.
  destruct (loadGraph s) as [r s0]; cbn in *; by subst.
Qed.

Lemma load_failure_propagates_witness :
  (forall candidates,
     createEntities candidates half_corrupt = (Thrown SyntaxError, half_corrupt)) /\
  (forall candidates,
     createRelations candidates half_corrupt = (Thrown SyntaxError, half_corrupt)) /\
  (forall items, addObservations items half_corrupt = (Thrown SyntaxError, half_corrupt)) /\
  (forall entityNames,
     deleteEntities entityNames half_corrupt = (Thrown SyntaxError, half_corrupt)) /\
  (forall deletions,
     deleteObservations deletions half_corrupt = (Thrown SyntaxError, half_corrupt)) /\
  (forall doomed,
     deleteRelations doomed half_corrupt = (Thrown SyntaxError, half_corrupt)) /\
  readGraph half_corrupt = (Thrown SyntaxError, half_corrupt) /\
  (forall query, searchNodes query half_corrupt = (Thrown SyntaxError, half_corrupt)) /\
  (forall names, openNodes names half_corrupt = (Thrown SyntaxError, half_corrupt)).
Proof.
  apply (load_failure_propagates half_corrupt SyntaxError);
    [vm_compute; reflexivity | exact I].
Defined.

Lemma reduce_fileLines (ls : list fileLine) (graph : KnowledgeGraph) :
  Forall wellPadded ls ->
  reduce decodeLine (filter (fun line => Text.trim line <> "") (map lineText ls)) graph =
  Returned {| entities := entities graph ++ omap lineEntity ls;
              relations := relations graph ++ omap lineRelation ls |}.
Proof.
  intros Hpad. revert graph.
  induction Hpad as [|[e|r|pad] ls Hl Hls IH]; intros graph; cbn [map omap lineEntity lineRelation lineText].
  - destruct graph. cbn. by rewrite !app_nil_r.
  - rewrite filter_cons_True by apply trim_record.
    cbn [reduce]. rewrite decodeLine_entity. cbn [mbind result_bind].
    rewrite IH. cbn [entities relations]. by rewrite <- app_assoc.
  - rewrite filter_cons_True by apply trim_record.
    cbn [reduce]. rewrite decodeLine_relation. cbn [mbind result_bind].
    rewrite IH. cbn [entities relations]. by rewrite <- app_assoc.
  - destruct Hl as [_ Htrim]. rewrite filter_cons_False by (intros H; by apply H).
    apply IH.
Qed.

Lemma lineText_one_line (l : fileLine) : wellPadded l -> one_line (lineText l).
Proof.
  destruct l as [e|r|pad]; cbn.
  - intros _. apply one_line_entityRecord.
  - intros _. apply one_line_relationRecord.
  - by intros [H _].
Qed.

(** X3.  [loadGraph] reads a file whose lines are records of entities,
    records of relations and blank lines in any order: the entities come
    out in the order of their lines, the relations in the order of theirs,
    and the blank lines are skipped. *)
Theorem decode_any_order (ls : list fileLine) :
  Forall wellPadded ls ->
  decode (Text.join (String Text.newline "") (map lineText ls)) =
  Returned {| entities := omap lineEntity ls; relations := omap lineRelation ls |}.
Proof.
  intros Hpad. unfold decode.
  pose proof (reduce_fileLines ls emptyGraph Hpad) as Hred. cbn in Hred.
  destruct ls as [|l ls]; [done |].
  cbn [map] in *. rewrite split_join; [exact Hred |].
  change (Forall one_line (map lineText (l :: ls))). apply Forall_map. eapply Forall_impl; [exact Hpad |]. apply lineText_one_line.
Qed.

Lemma decode_any_order_witness :
  decode (Text.join (String Text.newline "")
            (map lineText [RelationLine knows; BlankLine "  "; EntityLine bob;
                           EntityLine alice; BlankLine ""])) =
  Returned {| entities := [bob; alice]; relations := [knows] |}.
Proof.
  apply (decode_any_order [RelationLine knows; BlankLine "  "; EntityLine bob;
                           EntityLine alice; BlankLine ""]).
  repeat constructor.
Defined.

Lemma load_of_Returned {A : Type} (f : KnowledgeGraph -> M A) (s s' : store) (a : A) :
  (loadGraph ≫= f) s = (Returned a, s') ->
  exists graph, (loadGraph s).1 = Returned graph /\ f graph s = (Returned a, s').
Proof.
  rewrite bind_run. pose proof (loadGraph_store s) as Hs.
  destruct (loadGraph s) as [[g|e] s0]; cbn in Hs; subst; [| done]. eauto.
Qed.

Lemma filter_none {A : Type} (P : A -> Prop) `{forall x, Decision (P x)} (l : list A) :
  (forall x, x ∈ l -> ~ P x) -> filter P l = [].
Proof.
  intros Hl. induction l as [|x l IH]; [done |].
  rewrite filter_cons_False by (apply Hl; left).
  apply IH. intros y Hy. apply Hl. by right.
Qed.

(** Every key of [new] is among the keys of [old] followed by the fresh
    part of [new]. *)
Lemma key_after_append {A K : Type} `{EqDecision K} (key : A -> K) (old new : list A)
    (x : A) :
  x ∈ new ->
  key x ∈ key <$> (old ++ filter (fun y => key y ∉ key <$> old) new).
Proof.
  intros Hx. rewrite fmap_app, elem_of_app.
  destruct (decide (key x ∈ key <$> old)) as [Hold|Hnew]; [by left | right].
  apply list_elem_of_fmap. exists x. split; [done |]. by apply list_elem_of_filter.
Qed.

Lemma saved_store {A : Type} (graph' : KnowledgeGraph) (x a : A) (s s' : store) :
  (_ ← saveGraph graph'; mret x) s = (Returned a, s') -> s' = Stored (encode graph').
Proof.
  rewrite bind_run. destruct (saveGraph graph' s) as [[u|e] s1] eqn:Hsave; [| done].
  apply saveGraph_Returned in Hsave as ->. by intros [= _ <-].
Qed.

Lemma save_over_stored {A : Type} (graph' : KnowledgeGraph) (x : A) (data : string) :
  (_ ← saveGraph graph'; mret x) (Stored data) = (Returned x, Stored (encode graph')).
Proof. by rewrite bind_run, saveGraph_run. Qed.

Lemma createEntities_stored (candidates created : list Entity) (s s1 : store) :
  createEntities candidates s = (Returned created, s1) ->
  exists graph,
    (loadGraph s).1 = Returned graph /\
    created = filter (fun e => name e ∉ name <$> entities graph) candidates /\
    s1 = Stored (encode {| entities := entities graph ++ created;
                           relations := relations graph |}).
Proof.
  intros Hrun. destruct (load_of_Returned _ _ _ _ Hrun) as (graph & Hload & Hsave).
  exists graph. cbv zeta in Hsave.
  pose proof (saved_store _ _ _ _ _ Hsave) as Hs1.
  apply saved_graph in Hsave as [-> _]. split_and!; [done | | done].
  apply list_filter_iff, new_entity_iff.
Qed.

Lemma createRelations_stored (candidates created : list Relation) (s s1 : store) :
  createRelations candidates s = (Returned created, s1) ->
  exists graph,
    (loadGraph s).1 = Returned graph /\
    created = filter (fun r => triple r ∉ triple <$> relations graph) candidates /\
    s1 = Stored (encode {| entities := entities graph;
                           relations := relations graph ++ created |}).
Proof.
  intros Hrun. destruct (load_of_Returned _ _ _ _ Hrun) as (graph & Hload & Hsave).
  exists graph. cbv zeta in Hsave.
  pose proof (saved_store _ _ _ _ _ Hsave) as Hs1.
  apply saved_graph in Hsave as [-> _]. split_and!; [done | | done].
  apply list_filter_iff, new_relation_iff.
Qed.

(** X4.  Repeating a call of [createEntities] that returned, with the
    same candidates, creates nothing and leaves the file as it is. *)
Theorem createEntities_idempotent (candidates created : list Entity) (s s1 : store) :
  createEntities candidates s = (Returned created, s1) ->
  createEntities candidates s1 = (Returned [], s1).
Proof.
  intros (graph & _ & -> & ->)%createEntities_stored.
  unfold createEntities. rewrite bind_run, loadGraph_encode. cbv zeta.
  cbn [entities relations]. rewrite (filter_none _ candidates).
  - by rewrite app_nil_r, save_over_stored.
  - intros c Hc Hnew. apply new_entity_iff in Hnew.
    apply Hnew. by apply key_after_append.
Qed.

(** X5.  Repeating a call of [createRelations] that returned, with the
    same candidates, creates nothing and leaves the file as it is. *)
Theorem createRelations_idempotent (candidates created : list Relation) (s s1 : store) :
  createRelations candidates s = (Returned created, s1) ->
  createRelations candidates s1 = (Returned [], s1).
Proof.
  intros (graph & _ & -> & ->)%createRelations_stored.
  unfold createRelations. rewrite bind_run, loadGraph_encode. cbv zeta.
  cbn [entities relations]. rewrite (filter_none _ candidates).
  - by rewrite app_nil_r, save_over_stored.
  - intros c Hc Hnew. apply new_relation_iff in Hnew.
    apply Hnew. by apply key_after_append.
Qed.

Lemma createEntities_idempotent_witness :
  createEntities [alice; bob; alice] (createEntities [alice; bob; alice] dangling).2 =
  (Returned [], (createEntities [alice; bob; alice] dangling).2).
Proof.
  apply (createEntities_idempotent [alice; bob; alice] [bob] dangling).
  vm_compute. reflexivity.
Defined.

Lemma createRelations_idempotent_witness :
  createRelations [knows; knows] (createRelations [knows; knows] Missing).2 =
  (Returned [], (createRelations [knows; knows] Missing).2).
Proof.
  apply (createRelations_idempotent [knows; knows] [knows; knows] Missing).
  vm_compute. reflexivity.
Defined.

(** X6.  After [createEntities] returns, the file holds the graph it
    held with the returned entities appended: the stored entities and the
    relations are untouched, the returned entities are the candidates
    whose name was not stored, and the name of every candidate is stored. *)
Theorem createEntities_keeps_and_adds (candidates created : list Entity)
    (s s1 : store) (graph : KnowledgeGraph) :
  (loadGraph s).1 = Returned graph ->
  createEntities candidates s = (Returned created, s1) ->
  exists graph1,
    loadGraph s1 = (Returned graph1, s1) /\
    entities graph1 = entities graph ++ created /\
    relations graph1 = relations graph /\
    created = filter (fun e => name e ∉ name <$> entities graph) candidates /\
    (forall c, c ∈ candidates -> name c ∈ name <$> entities graph1).
Proof.
  intros Hload [-> Hload1]%(createEntities_run s graph Hload).
  eexists. split; [exact Hload1 |]. cbn [entities relations].
  split_and!; try done. intros c Hc. by apply key_after_append.
Qed.

Lemma createEntities_keeps_and_adds_witness :
  exists graph1,
    loadGraph (createEntities [bob; alice] alone).2 =
      (Returned graph1, (createEntities [bob; alice] alone).2) /\
    entities graph1 = [alice] ++ [bob] /\
    relations graph1 = [] /\
    [bob] = filter (fun e => name e ∉ name <$> [alice]) [bob; alice] /\
    (forall c, c ∈ [bob; alice] -> name c ∈ name <$> entities graph1).
Proof.
  apply (createEntities_keeps_and_adds [bob; alice] [bob] alone _
           {| entities := [alice]; relations := [] |}).
  - vm_compute. reflexivity.
  - vm_compute. reflexivity.
Defined.

(** X7.  After [createRelations] returns, the file holds the graph it
    held with the returned relations appended: the entities and the stored
    relations are untouched, the returned relations are the candidates
    whose triple was not stored, and the triple of every candidate is
    stored. *)
Theorem createRelations_keeps_and_adds (candidates created : list Relation)
    (s s1 : store) (graph : KnowledgeGraph) :
  (loadGraph s).1 = Returned graph ->
  createRelations candidates s = (Returned created, s1) ->
  exists graph1,
    loadGraph s1 = (Returned graph1, s1) /\
    entities graph1 = entities graph /\
    relations graph1 = relations graph ++ created /\
    created = filter (fun r => triple r ∉ triple <$> relations graph) candidates /\
    (forall c, c ∈ candidates -> triple c ∈ triple <$> relations graph1).
Proof.
  intros Hload [-> Hload1]%(createRelations_run s graph Hload).
  eexists. split; [exact Hload1 |]. cbn [entities relations].
  split_and!; try done. intros c Hc. by apply key_after_append.
Qed.

Lemma createRelations_keeps_and_adds_witness :
  exists graph1,
    loadGraph (createRelations [admires; knows] acquainted).2 =
      (Returned graph1, (createRelations [admires; knows] acquainted).2) /\
    entities graph1 = [alice; bob] /\
    relations graph1 = [knows] ++ [admires] /\
    [admires] = filter (fun r => triple r ∉ triple <$> [knows]) [admires; knows] /\
    (forall c, c ∈ [admires; knows] -> triple c ∈ triple <$> relations graph1).
Proof.
  apply (createRelations_keeps_and_adds [admires; knows] [admires] acquainted _
           {| entities := [alice; bob]; relations := [knows] |}).
  - vm_compute. reflexivity.
  - vm_compute. reflexivity.
Defined.

Lemma deleteObservations_run (deletions : list Deletion.t) (s s1 : store)
    (graph : KnowledgeGraph) (u : unit) :
  (loadGraph s).1 = Returned graph ->
  deleteObservations deletions s = (Returned u, s1) ->
  loadGraph s1 =
  (Returned {| entities := fold_left deleteObservation deletions (entities graph);
               relations := relations graph |}, s1).
Proof.
  intros Hload%loadGraph_run. unfold deleteObservations.
  rewrite bind_run, Hload. intros ->%saveGraph_Returned. apply loadGraph_encode.
Qed.

Lemma deleteRelations_run (doomed : list Relation) (s s1 : store)
    (graph : KnowledgeGraph) (u : unit) :
  (loadGraph s).1 = Returned graph ->
  deleteRelations doomed s = (Returned u, s1) ->
  loadGraph s1 =
  (Returned {| entities := entities graph;
               relations := filter (fun r => triple r ∉ triple <$> doomed)
                                   (relations graph) |}, s1).
Proof.
  intros Hload%loadGraph_run. unfold deleteRelations.
  rewrite bind_run, Hload. intros ->%saveGraph_Returned.
  rewrite loadGraph_encode. do 3 f_equal.
  apply list_filter_iff. intros r. rewrite Exists_exists, list_elem_of_fmap.
  split; intros H (x & H1 & H2); apply H; exists x.
  - split; [done |]. apply sameTriple_triple. done.
  - split; [| done]. by apply sameTriple_triple.
Qed.

(** X8.  [deleteRelations] removes the relations whose triple is that
    of a relation of the batch and nothing else: the entities and the
    order of the relations kept are untouched, and a batch none of whose
    triples is stored leaves the graph as it was. *)
Theorem deleteRelations_exact (doomed : list Relation) (s s1 : store)
    (graph : KnowledgeGraph) :
  (loadGraph s).1 = Returned graph ->
  deleteRelations doomed s = (Returned tt, s1) ->
  exists graph1,
    loadGraph s1 = (Returned graph1, s1) /\
    entities graph1 = entities graph /\
    relations graph1 = filter (fun r => triple r ∉ triple <$> doomed) (relations graph) /\
    ((forall d, d ∈ doomed -> triple d ∉ triple <$> relations graph) -> graph1 = graph).
Proof.
  intros Hload Hrun. eexists. split; [by eapply deleteRelations_run |].
  cbn [entities relations]. split_and!; try done.
  intros Hnone. destruct graph as [es rs]. cbn [entities relations] in *. f_equal.
  apply filter_all, Forall_forall. intros r Hr (d & Hd & Hin)%list_elem_of_fmap.
  apply (Hnone d Hin). rewrite <- Hd. apply list_elem_of_fmap. eauto.
Qed.

Lemma deleteRelations_exact_witness :
  exists graph1,
    loadGraph (deleteRelations [knows] acquainted).2 =
      (Returned graph1, (deleteRelations [knows] acquainted).2) /\
    entities graph1 = [alice; bob] /\
    relations graph1 = filter (fun r => triple r ∉ triple <$> [knows]) [knows] /\
    ((forall d, d ∈ [knows] -> triple d ∉ triple <$> [knows]) ->
     graph1 = {| entities := [alice; bob]; relations := [knows] |}).
Proof.
  apply (deleteRelations_exact [knows] acquainted _
           {| entities := [alice; bob]; relations := [knows] |}).
  - vm_compute. reflexivity.
  - vm_compute. reflexivity.
Defined.

Lemma purged_other (d : Deletion.t) (e : Entity) :
  name e <> Deletion.entityName d -> purged [d] e = e.
Proof.
  intros Hne. destruct e as [n t obs]. unfold purged. cbn [name entityType observations] in *.
  f_equal. apply filter_all, Forall_forall. intros o _ H.
  apply Exists_cons in H as [[H _]|H]; [by symmetry in H | inversion H].
Qed.

Lemma purged_same (d : Deletion.t) (e : Entity) :
  name e = Deletion.entityName d ->
  purged [d] e =
  {| name := name e; entityType := entityType e;
     observations := filter (fun o => o ∉ Deletion.observations d) (observations e) |}.
Proof.
  intros He. unfold purged. f_equal. apply list_filter_iff. intros o.
  unfold listed. rewrite Exists_cons, Exists_nil. split.
  - intros H Ho. apply H. by left.
  - intros H [[_ Ho]|[]]. done.
Qed.

(** One deletion on a graph with distinct names: the entity of that
    name, if there is one, loses the listed strings. *)
Lemma deleteObservation_fmap (ents : list Entity) (d : Deletion.t) :
  NoDup (name <$> ents) ->
  deleteObservation ents d = purged [d] <$> ents.
Proof.
  intros Hnodup. unfold deleteObservation.
  induction ents as [|e ents IH]; [done |].
  rewrite fmap_cons in Hnodup. apply NoDup_cons in Hnodup as [Hfresh Hnodup].
  rewrite fmap_cons. cbn [list_find].
  destruct (decide (name e = Deletion.entityName d)) as [He|He].
  - cbn. rewrite <- purged_same by done. f_equal.
    symmetry. rewrite <- (list_fmap_id ents) at 2. apply Forall_fmap_ext_1, Forall_forall.
    intros x Hx. apply purged_other. intros Hxd. apply Hfresh.
    rewrite He, <- Hxd. apply list_elem_of_fmap. eauto.
  - rewrite purged_other by done. specialize (IH Hnodup).
    destruct (list_find _ ents) as [[i x]|]; cbn in *; f_equal; exact IH.
Qed.

Lemma purged_name (deletions : list Deletion.t) (e : Entity) :
  name (purged deletions e) = name e.
Proof. reflexivity. Qed.

Lemma purged_cons (d : Deletion.t) (deletions : list Deletion.t) (e : Entity) :
  purged deletions (purged [d] e) = purged (d :: deletions) e.
Proof.
  unfold purged. cbn [name entityType observations]. f_equal.
  rewrite list_filter_filter. apply list_filter_iff. intros o.
  unfold listed. cbn [name]. rewrite !Exists_cons, Exists_nil. tauto.
Qed.

Lemma deleteObservations_fmap (deletions : list Deletion.t) (ents : list Entity) :
  NoDup (name <$> ents) ->
  fold_left deleteObservation deletions ents = purged deletions <$> ents.
Proof.
  revert ents. induction deletions as [|d deletions IH]; intros ents Hnodup.
  - cbn. rewrite <- (list_fmap_id ents) at 1. apply Forall_fmap_ext_1, Forall_forall.
    intros [n t obs] _. unfold purged. cbn. f_equal. symmetry.
    apply filter_all, Forall_forall. intros o _ H. inversion H.
  - cbn [fold_left]. rewrite deleteObservation_fmap by done.
    rewrite IH.
    + rewrite <- list_fmap_compose. apply Forall_fmap_ext_1, Forall_forall.
      intros e _. apply purged_cons.
    + rewrite <- list_fmap_compose. done.
Qed.

(** X9.  On a graph whose names are distinct, [deleteObservations]
    stores the graph in which every entity lost the observations that some
    item naming it lists, and nothing else: names, types, the order of
    what is kept and the relations are untouched. *)
Theorem deleteObservations_exact (deletions : list Deletion.t) (s s1 : store)
    (graph : KnowledgeGraph) :
  (loadGraph s).1 = Returned graph ->
  NoDup (name <$> entities graph) ->
  deleteObservations deletions s = (Returned tt, s1) ->
  loadGraph s1 =
  (Returned {| entities := purged deletions <$> entities graph;
               relations := relations graph |}, s1).
Proof.
  intros Hload Hnodup Hrun.
  rewrite (deleteObservations_run _ _ _ _ _ Hload Hrun).
  by rewrite deleteObservations_fmap.
Qed.

Lemma deleteObservations_exact_witness :
  loadGraph (deleteObservations coffee_gone acquainted).2 =
  (Returned {| entities := purged coffee_gone <$> [alice; bob];
               relations := [knows] |},
   (deleteObservations coffee_gone acquainted).2).
Proof.
  apply (deleteObservations_exact coffee_gone acquainted _
           {| entities := [alice; bob]; relations := [knows] |}).
  - vm_compute. reflexivity.
  - cbn. repeat constructor; compute_done.
  - vm_compute. reflexivity.
Defined.

Lemma deleteObservation_names (ents : list Entity) (d : Deletion.t) :
  name <$> deleteObservation ents d = name <$> ents.
Proof.
  unfold deleteObservation.
  destruct (list_find _ ents) as [[i entity]|] eqn:Hfind; [| done].
  apply list_find_Some in Hfind as (Hi & _ & _).
  rewrite list_fmap_insert. cbn [name]. apply list_insert_id.
  by rewrite list_lookup_fmap, Hi.
Qed.

Lemma deleteObservation_tidy (ents : list Entity) (d : Deletion.t) :
  tidy ents -> tidy (deleteObservation ents d).
Proof.
  intros Htidy. unfold deleteObservation.
  destruct (list_find _ ents) as [[i entity]|] eqn:Hfind; [| done].
  apply list_find_Some in Hfind as (Hi & _ & _).
  apply Forall_insert; [done |]. cbn [observations].
  apply NoDup_filter. by eapply (Forall_lookup_1 _ _ _ _ Htidy).
Qed.

Lemma deleteObservations_names (deletions : list Deletion.t) (ents : list Entity) :
  name <$> fold_left deleteObservation deletions ents = name <$> ents.
Proof.
  revert ents. induction deletions as [|d deletions IH]; intros ents; [done |].
  cbn [fold_left]. by rewrite IH, deleteObservation_names.
Qed.

Lemma deleteObservations_tidy (deletions : list Deletion.t) (ents : list Entity) :
  tidy ents -> tidy (fold_left deleteObservation deletions ents).
Proof.
  revert ents. induction deletions as [|d deletions IH]; intros ents Htidy; [done |].
  cbn [fold_left]. by apply IH, deleteObservation_tidy.
Qed.

Lemma deleteObservations_unknown (deletions : list Deletion.t) (ents : list Entity) :
  Forall (fun d => Deletion.entityName d ∉ name <$> ents) deletions ->
  fold_left deleteObservation deletions ents = ents.
Proof.
  induction 1 as [|d deletions Hd Hrest IH]; [done |].
  cbn [fold_left]. unfold deleteObservation at 2.
  destruct (list_find _ ents) as [[i entity]|] eqn:Hfind; [| done].
  apply list_find_Some in Hfind as (Hi & Hname & _).
  exfalso. apply Hd. rewrite <- Hname. apply list_elem_of_fmap.
  exists entity. split; [done |]. by eapply list_elem_of_lookup_2.
Qed.

Lemma saveGraph_writable (graph : KnowledgeGraph) (s : store) :
  writable s -> saveGraph graph s = (Returned tt, Stored (encode graph)).
Proof. rewrite saveGraph_run. by destruct s. Qed.

(** X10.  [deleteObservations] passes over the items that name no stored
    entity: where [addObservations] throws, it returns, on a file that can
    be written, and the file holds the graph it held. *)
Theorem deleteObservations_unknown_names (deletions : list Deletion.t) (s : store)
    (graph : KnowledgeGraph) :
  (loadGraph s).1 = Returned graph ->
  Forall (fun d => Deletion.entityName d ∉ name <$> entities graph) deletions ->
  writable s ->
  exists s1, deleteObservations deletions s = (Returned tt, s1) /\
             loadGraph s1 = (Returned graph, s1).
Proof.
  intros Hload%loadGraph_run Hunknown Hw. unfold deleteObservations.
  rewrite bind_run, Hload, deleteObservations_unknown by done.
  rewrite saveGraph_writable by done. eexists. split; [done |].
  destruct graph as [es rs]. apply loadGraph_encode.
Qed.

Lemma deleteObservations_unknown_names_witness :
  exists s1, deleteObservations carol_gone acquainted = (Returned tt, s1) /\
             loadGraph s1 =
               (Returned {| entities := [alice; bob]; relations := [knows] |}, s1).
Proof.
  apply (deleteObservations_unknown_names carol_gone acquainted
           {| entities := [alice; bob]; relations := [knows] |}).
  - vm_compute. reflexivity.
  - repeat constructor. cbn. compute_done.
  - exact I.
Defined.

Lemma NoDup_fmap_filter {A K : Type} (key : A -> K) (P : A -> Prop)
    `{forall x, Decision (P x)} (l : list A) :
  NoDup (key <$> l) -> NoDup (key <$> filter P l).
Proof.
  intros Hl. eapply sublist_NoDup; [exact Hl |].
  apply fmap_sublist, sublist_filter.
Qed.

Lemma Forall_filter_keep {A : Type} (Q P : A -> Prop) `{forall x, Decision (P x)}
    (l : list A) :
  Forall Q l -> Forall Q (filter P l).
Proof.
  rewrite !Forall_forall. intros Hl x [_ Hx]%list_elem_of_filter. auto.
Qed.

(** X11.  The three delete operations keep the uniqueness invariants of
    the stored graph: distinct names, distinct triples, and no observation
    twice on an entity. *)
Theorem deletions_keep_invariants :
  (forall entityNames,
     keeps distinctNames (deleteEntities entityNames) /\
     keeps distinctTriples (deleteEntities entityNames) /\
     keeps tidyGraph (deleteEntities entityNames)) /\
  (forall deletions,
     keeps distinctNames (deleteObservations deletions) /\
     keeps distinctTriples (deleteObservations deletions) /\
     keeps tidyGraph (deleteObservations deletions)) /\
  (forall doomed,
     keeps distinctNames (deleteRelations doomed) /\
     keeps distinctTriples (deleteRelations doomed) /\
     keeps tidyGraph (deleteRelations doomed)).
Proof.
  split_and!; intros arg; split_and!; intros s s1 graph [] Hload HP Hrun; eexists;
    (split;
     [ first [ eapply deleteEntities_run; eassumption
             | eapply deleteObservations_run; eassumption
             | eapply deleteRelations_run; eassumption ] |]);
    unfold distinctNames, distinctTriples, tidyGraph in *; cbn [entities relations];
    try done.
  - by apply NoDup_fmap_filter.
  - by apply NoDup_fmap_filter.
  - by apply Forall_filter_keep.
  - by rewrite deleteObservations_names.
  - by apply deleteObservations_tidy.
  - by apply NoDup_fmap_filter.
Qed.

Lemma deletions_keep_invariants_witness :
  exists graph1,
    loadGraph (deleteEntities ["Bob"] acquainted).2 =
      (Returned graph1, (deleteEntities ["Bob"] acquainted).2) /\
    distinctNames graph1.
Proof.
  apply (proj1 (proj1 deletions_keep_invariants ["Bob"]) acquainted _
           {| entities := [alice; bob]; relations := [knows] |} tt).
  - vm_compute. reflexivity.
  - unfold distinctNames. cbn. repeat constructor; compute_done.
  - vm_compute. reflexivity.
Defined.

Lemma addAll_names (items : list Addition.t) (ents ents' : list Entity)
    (results : list Added.t) :
  addAll items ents = Returned (results, ents') -> name <$> ents' = name <$> ents.
Proof.
  revert ents results. induction items as [|o items IH]; intros ents results; cbn [addAll].
  - by intros [= _ <-].
  - destruct (addObservation ents o) as [[added ents1]|e] eqn:Hadd; [| done].
    cbn [mbind result_bind].
    destruct (addAll items ents1) as [[results' ents2]|e] eqn:Hall; [| done].
    intros [= _ <-]. rewrite (IH _ _ Hall). by eapply addObservation_names.
Qed.

(** X12.  Referential integrity of the stored graph (both ends of every
    relation name a stored entity) is kept by [createEntities],
    [addObservations] and the three delete operations. *)
Theorem integrity_kept :
  (forall candidates, keeps closed (createEntities candidates)) /\
  (forall items, keeps closed (addObservations items)) /\
  (forall entityNames, keeps closed (deleteEntities entityNames)) /\
  (forall deletions, keeps closed (deleteObservations deletions)) /\
  (forall doomed, keeps closed (deleteRelations doomed)).
Proof.
  split_and!; intros arg s s1 graph a Hload Hclosed Hrun.
  - destruct (createEntities_run s graph Hload _ _ _ Hrun) as [-> Hload1].
    eexists. split; [exact Hload1 |]. intros r Hr. cbn [entities relations] in *.
    rewrite fmap_app, !elem_of_app. destruct (Hclosed r Hr). auto.
  - destruct (addObservations_run s graph Hload _ _ _ Hrun) as (ents & Hall & Hload1).
    eexists. split; [exact Hload1 |]. intros r Hr. cbn [entities relations] in *.
    rewrite (addAll_names _ _ _ _ Hall). auto.
  - eexists. split; [by eapply deleteEntities_run |].
    intros r [[Hfrom Hto] Hr]%list_elem_of_filter. cbn [entities].
    destruct (Hclosed r Hr) as [(e1 & He1 & Hin1)%list_elem_of_fmap
                                (e2 & He2 & Hin2)%list_elem_of_fmap].
    split; apply list_elem_of_fmap; [exists e1 | exists e2];
      (split; [done |]); apply list_elem_of_filter; split; congruence.
  - eexists. split; [by eapply deleteObservations_run |].
    intros r Hr. cbn [entities relations] in *.
    rewrite deleteObservations_names. auto.
  - eexists. split; [by eapply deleteRelations_run |].
    intros r [_ Hr]%list_elem_of_filter. cbn [entities]. auto.
Qed.

Lemma integrity_kept_witness :
  exists graph1,
    loadGraph (deleteEntities ["Bob"] acquainted).2 =
      (Returned graph1, (deleteEntities ["Bob"] acquainted).2) /\
    closed graph1.
Proof.
  apply (proj1 (proj2 (proj2 integrity_kept)) ["Bob"] acquainted _
           {| entities := [alice; bob]; relations := [knows] |} tt).
  - vm_compute. reflexivity.
  - intros r ->%list_elem_of_singleton. cbn. split; compute_done.
  - vm_compute. reflexivity.
Defined.

(** X13.  [searchNodes] and [openNodes] return, on a file that loads,
    entities and relations of the stored graph in their stored order;
    [openNodes] returns the entities whose name is asked for, and both
    return the relations that run between two returned entities. *)
Theorem queries_exact (s : store) (graph : KnowledgeGraph) (query : string)
    (names : list string) :
  (loadGraph s).1 = Returned graph ->
  exists found opened,
    searchNodes query s = (Returned found, s) /\
    openNodes names s = (Returned opened, s) /\
    entities found `sublist_of` entities graph /\
    entities opened = filter (fun e => name e ∈ names) (entities graph) /\
    (forall r, r ∈ relations found <->
               (r ∈ relations graph) /\
               (from r ∈ name <$> entities found) /\ (to r ∈ name <$> entities found)) /\
    (forall r, r ∈ relations opened <->
               (r ∈ relations graph) /\
               (from r ∈ name <$> entities opened) /\ (to r ∈ name <$> entities opened)) /\
    relations found `sublist_of` relations graph /\
    relations opened `sublist_of` relations graph.
Proof.
  intros Hload. eexists _, _.
  split; [by apply searchNodes_run |]. split; [by apply openNodes_run |].
  cbn [entities]. split_and!; try done.
  - apply sublist_filter.
  - intros r. apply between_relations.
  - intros r. apply between_relations.
  - apply sublist_filter.
  - apply sublist_filter.
Qed.

Lemma queries_exact_witness :
  exists found opened,
    searchNodes "person" dangling = (Returned found, dangling) /\
    openNodes ["Alice"; "Bob"] dangling = (Returned opened, dangling) /\
    entities found `sublist_of` [alice] /\
    entities opened = filter (fun e => name e ∈ ["Alice"; "Bob"]) [alice] /\
    (forall r, r ∈ relations found <->
               (r ∈ [knows]) /\
               (from r ∈ name <$> entities found) /\ (to r ∈ name <$> entities found)) /\
    (forall r, r ∈ relations opened <->
               (r ∈ [knows]) /\
               (from r ∈ name <$> entities opened) /\ (to r ∈ name <$> entities opened)) /\
    relations found `sublist_of` [knows] /\
    relations opened `sublist_of` [knows].
Proof.
  apply (queries_exact dangling {| entities := [alice]; relations := [knows] |}
           "person" ["Alice"; "Bob"]).
  vm_compute. reflexivity.
Defined.

(** X14.  [openNodes] reads its argument as a set: two lists that hold
    the same names, in any order and with any repetition, give the same
    answer. *)
Theorem openNodes_names_as_set (names1 names2 : list string) (s : store) :
  (forall n, n ∈ names1 <-> n ∈ names2) ->
  openNodes names1 s = openNodes names2 s.
Proof.
  intros Hsame. unfold openNodes. rewrite !bind_run.
  destruct (loadGraph s) as [[graph|e] s0]; [| done].
  do 3 f_equal. apply list_filter_iff. intros e. apply Hsame.
Qed.

Lemma openNodes_names_as_set_witness :
  openNodes ["Bob"; "Alice"; "Bob"] acquainted = openNodes ["Alice"; "Bob"] acquainted.
Proof.
  apply (openNodes_names_as_set ["Bob"; "Alice"; "Bob"] ["Alice"; "Bob"] acquainted).
  intros n. rewrite !elem_of_cons, !elem_of_nil. tauto.
Defined.

(** X15.  After [deleteEntities] returns, opening the deleted names
    gives the empty graph. *)
Theorem deleted_are_gone (entityNames : list string) (s s1 : store) (u : unit) :
  deleteEntities entityNames s = (Returned u, s1) ->
  openNodes entityNames s1 = (Returned emptyGraph, s1).
Proof.
  intros Hrun. destruct (load_of_Returned _ _ _ _ Hrun) as (graph & Hload & _).
  rewrite (openNodes_run _ _ (f_equal fst (deleteEntities_run s graph Hload _ _ _ Hrun))).
  do 2 f_equal. cbn [entities].
  rewrite (filter_none _ (filter _ _)).
  - unfold between, emptyGraph. cbn [relations fmap list_fmap]. f_equal.
    apply filter_none. intros r _ [H _]. cbn in H. set_solver.
  - intros e [He _]%list_elem_of_filter. done.
Qed.

Lemma deleted_are_gone_witness :
  openNodes ["Bob"] (deleteEntities ["Bob"] acquainted).2 =
  (Returned emptyGraph, (deleteEntities ["Bob"] acquainted).2).
Proof.
  apply (deleted_are_gone ["Bob"] acquainted _ tt). vm_compute. reflexivity.
Defined.

Lemma prefix_spec (n h : string) :
  String.prefix n h = true <-> exists post, h = n +:+ post.
Proof.
  revert h. induction n as [|c n IH]; intros h.
  - split; [intros _; by exists h | by destruct h].
  - destruct h as [|c' h]; cbn [String.prefix].
    + split; [done | intros [post H]; by rewrite append_cons in H].
    + destruct (ascii_dec c c') as [<-|Hne].
      * rewrite IH. split; intros [post H]; exists post.
        -- by rewrite append_cons, H.
        -- rewrite append_cons in H. by injection H.
      * split; [done |]. intros [post H]. rewrite append_cons in H. congruence.
Qed.

Lemma includes_cons (c : ascii) (h n : string) :
  Text.includes (String c h) n = String.prefix n (String c h) || Text.includes h n.
Proof. reflexivity. Qed.

Lemma includes_spec (h n : string) :
  Text.includes h n = true <-> exists pre post, h = pre +:+ n +:+ post.
Proof.
  induction h as [|c h IH].
  - cbn [Text.includes]. rewrite orb_false_r, prefix_spec. split.
    + intros [post H]. by exists "", post.
    + intros ([|c pre] & post & H); [by exists post |]. by rewrite append_cons in H.
  - rewrite includes_cons, orb_true_iff, prefix_spec, IH. split.
    + intros [[post H]|(pre & post & H)].
      * by exists "", post.
      * exists (String c pre), post. by rewrite append_cons, H.
    + intros ([|c' pre] & post & H).
      * left. by exists post.
      * right. rewrite append_cons in H. injection H as -> ->. eauto.
Qed.

Lemma includes_occursIn (query field : string) :
  Text.includes (Text.toLowerCase field) (Text.toLowerCase query) = true <->
  occursIn query field.
Proof. apply includes_spec. Qed.

Lemma matches_spec (query : string) (e : Entity) :
  matches query e = true <->
  exists field, field ∈ name e :: entityType e :: observations e /\ occursIn query field.
Proof.
  unfold matches. rewrite !orb_true_iff, !includes_occursIn, existsb_exists.
  split.
  - intros [[H|H]|(o & Ho & H)].
    + exists (name e). split; [left | done].
    + exists (entityType e). split; [right; left | done].
    + exists o. apply includes_occursIn in H. split; [| done].
      do 2 right. by apply list_elem_of_In.
  - intros (field & Hin & H). rewrite !elem_of_cons in Hin.
    destruct Hin as [->|[->|Hin]]; [by left; left | by left; right | right].
    exists field. split; [by apply list_elem_of_In | by apply includes_occursIn].
Qed.

(** X16.  [searchNodes] returns the stored entities of which the name,
    the type or some observation, put in lower case, holds the query put
    in lower case as a substring. *)
Theorem searchNodes_finds (query : string) (s : store) (graph : KnowledgeGraph) :
  (loadGraph s).1 = Returned graph ->
  exists found,
    searchNodes query s = (Returned found, s) /\
    forall e, e ∈ entities found <->
      (e ∈ entities graph) /\
      exists field, field ∈ name e :: entityType e :: observations e /\
                    occursIn query field.
Proof.
  intros Hload. eexists. split; [by apply searchNodes_run |].
  intros e. unfold between. cbn [entities]. rewrite list_elem_of_filter, <- matches_spec.
  rewrite Is_true_true. tauto.
Qed.

Lemma searchNodes_finds_witness :
  exists found,
    searchNodes "likes Coffee" acquainted = (Returned found, acquainted) /\
    (alice ∈ entities found) /\ (bob ∉ entities found).
Proof.
  destruct (searchNodes_finds "likes Coffee" acquainted
              {| entities := [alice; bob]; relations := [knows] |})
    as (found & Hrun & Hfound); [vm_compute; reflexivity |].
  exists found. split; [exact Hrun |]. split.
  - apply Hfound. split; [left |]. exists "Likes COFFEE".
    split; [do 2 right; left |]. by exists "", "".
  - intros (_ & field & Hin & pre & post & H)%Hfound.
    apply (f_equal String.length) in H. rewrite !length_append in H.
    cbn in Hin. rewrite !elem_of_cons, elem_of_nil in Hin.
    destruct Hin as [->|[->|[]]]; cbn in H; lia.
Defined.

Lemma extended_refl (ents : list Entity) : extended ents ents.
Proof. apply Forall_Forall2_diag, Forall_true. by intros e. Qed.

Lemma extended_trans (a b c : list Entity) :
  extended a b -> extended b c -> extended a c.
Proof.
  unfold extended. intros Hab. revert c.
  induction Hab as [|x y a b (Hn & Ht & Hp) Hab IH]; intros c Hbc;
    inversion Hbc as [|y' z b' c' (Hn' & Ht' & Hp') Hbc']; subst; constructor.
  - split_and!; [congruence | congruence | by etrans].
  - by apply IH.
Qed.

Lemma extended_find (ents ents' : list Entity) (n : string) (i : nat) (e : Entity) :
  extended ents ents' ->
  list_find (fun e => name e = n) ents = Some (i, e) ->
  exists e', list_find (fun e => name e = n) ents' = Some (i, e') /\
             observations e `prefix_of` observations e'.
Proof.
  intros Hext. revert i.
  induction Hext as [|x y ents ents' (Hn & _ & Hp) Hext IH]; intros i Hfind; [done |].
  cbn [list_find] in Hfind |- *. rewrite <- Hn.
  destruct (decide (name x = n)) as [Heq|Hne].
  - injection Hfind as <- <-. eauto.
  - destruct (list_find _ ents) as [[j z]|] eqn:Hf; [| done].
    cbn in Hfind. injection Hfind as <- <-.
    destruct (IH j eq_refl) as (e' & -> & Hsub). cbn. eauto.
Qed.

Lemma holdsContents_extended (ents ents' : list Entity) (o : Addition.t) :
  extended ents ents' -> holdsContents ents o -> holdsContents ents' o.
Proof.
  intros Hext (i & e & Hfind & Hall).
  destruct (extended_find _ _ _ _ _ Hext Hfind) as (e' & Hfind' & Hp).
  exists i, e'. split; [done |]. intros c Hc.
  eapply (elem_of_prefix _ _ _ (Hall c Hc)). done.
Qed.

Lemma addObservation_spec (ents ents' : list Entity) (o : Addition.t) (a : Added.t) :
  addObservation ents o = Returned (a, ents') ->
  extended ents ents' /\ holdsContents ents' o /\ answers o a.
Proof.
  unfold addObservation.
  destruct (list_find _ ents) as [[i e]|] eqn:Hfind; [| done].
  intros [= <- <-].
  pose proof Hfind as (Hi & Hname & Hfirst)%list_find_Some.
  split_and!.
  - rewrite <- (list_insert_id ents i e) at 1 by done.
    apply Forall2_insert; [apply extended_refl |]. cbn.
    split_and!; [done | done | by apply prefix_app_r].
  - eexists i, _. split.
    + apply list_find_Some. split_and!.
      * apply list_lookup_insert_eq. by eapply lookup_lt_Some.
      * done.
      * intros j y Hj Hlt. rewrite list_lookup_insert_ne in Hj by lia. eauto.
    + intros c Hc. cbn [observations]. apply elem_of_app.
      destruct (decide (c ∈ observations e)); [by left | right].
      by apply list_elem_of_filter.
  - split; [done |]. cbn. apply sublist_filter.
Qed.

Lemma addAll_spec (items : list Addition.t) (ents ents' : list Entity)
    (results : list Added.t) :
  addAll items ents = Returned (results, ents') ->
  extended ents ents' /\ Forall (holdsContents ents') items /\
  Forall2 answers items results.
Proof.
  revert ents results. induction items as [|o items IH]; intros ents results; cbn [addAll].
  - intros [= <- <-]. split_and!; [apply extended_refl | done | done].
  - destruct (addObservation ents o) as [[added ents1]|e] eqn:Hadd; [| done].
    cbn [mbind result_bind].
    destruct (addAll items ents1) as [[results' ents2]|e] eqn:Hall; [| done].
    intros [= <- <-].
    destruct (addObservation_spec _ _ _ _ Hadd) as (Hext1 & Hholds & Hans).
    destruct (IH _ _ Hall) as (Hext2 & Hrest & Hanss).
    split_and!.
    + by eapply extended_trans.
    + constructor; [by eapply holdsContents_extended | done].
    + by constructor.
Qed.

(** X17.  After [addObservations] returns, the relations are untouched,
    every stored entity is where it was with the observations it had as a
    prefix of those it has, every string of every item is an observation
    of the entity the item names, and every result names the entity of its
    item and reports strings of its item. *)
Theorem addObservations_adds (items : list Addition.t) (results : list Added.t)
    (s s1 : store) (graph : KnowledgeGraph) :
  (loadGraph s).1 = Returned graph ->
  addObservations items s = (Returned results, s1) ->
  exists graph1,
    loadGraph s1 = (Returned graph1, s1) /\
    relations graph1 = relations graph /\
    extended (entities graph) (entities graph1) /\
    Forall (holdsContents (entities graph1)) items /\
    Forall2 answers items results.
Proof.
  intros Hload (ents & Hall & Hload1)%(addObservations_run s graph Hload).
  eexists. split; [exact Hload1 |]. cbn [entities relations].
  split; [done |]. by apply addAll_spec.
Qed.

Lemma addObservations_adds_witness :
  exists graph1,
    loadGraph (addObservations coffee_twice acquainted).2 =
      (Returned graph1, (addObservations coffee_twice acquainted).2) /\
    relations graph1 = [knows] /\
    extended [alice; bob] (entities graph1) /\
    Forall (holdsContents (entities graph1)) coffee_twice /\
    Forall2 answers coffee_twice
      [ {| Added.entityName := "Alice"; Added.addedObservations := ["Drinks tea"] |};
        {| Added.entityName := "Alice"; Added.addedObservations := [] |} ].
Proof.
  apply (addObservations_adds coffee_twice _ acquainted _
           {| entities := [alice; bob]; relations := [knows] |}).
  - vm_compute. reflexivity.
  - vm_compute. reflexivity.
Defined.

Lemma deleteEntities_stored (entityNames : list string) (data : string)
    (graph : KnowledgeGraph) :
  decode data = Returned graph ->
  deleteEntities entityNames (Stored data) =
  (Returned tt,
   Stored (encode
     {| entities := filter (fun e => name e ∉ entityNames) (entities graph);
        relations := filter (fun r => (from r ∉ entityNames) /\ (to r ∉ entityNames))
                            (relations graph) |})).
Proof.
  intros Hdec. unfold deleteEntities.
  by rewrite bind_run, (loadGraph_Stored _ _ Hdec), saveGraph_run.
Qed.

(** X18.  Deleting the entities that a call of [createEntities] returned
    restores the graph that the file held before the call, when no stored
    relation has an end among them. *)
Theorem create_then_delete_entities (candidates created : list Entity) (s s1 : store)
    (graph : KnowledgeGraph) :
  (loadGraph s).1 = Returned graph ->
  createEntities candidates s = (Returned created, s1) ->
  (forall r, r ∈ relations graph ->
             (from r ∉ name <$> created) /\ (to r ∉ name <$> created)) ->
  exists s2, deleteEntities (name <$> created) s1 = (Returned tt, s2) /\
             loadGraph s2 = (Returned graph, s2).
Proof.
  intros Hload Hrun Hfree.
  destruct (createEntities_stored _ _ _ _ Hrun) as (graph' & Hload' & Hcreated & ->).
  assert (graph' = graph) as -> by congruence.
  eexists. split; [apply deleteEntities_stored, decode_encode |].
  cbn [entities relations]. rewrite filter_app.
  rewrite (filter_all _ (entities graph)), (filter_none _ created), app_nil_r.
  - rewrite (filter_all _ (relations graph)).
    + destruct graph as [es rs]. apply loadGraph_encode.
    + apply Forall_forall. intros r Hr. by apply Hfree.
  - intros c Hc Hnot. apply Hnot, list_elem_of_fmap. eauto.
  - apply Forall_forall. intros e He (c & Hname & Hc)%list_elem_of_fmap.
    rewrite Hcreated in Hc. apply list_elem_of_filter in Hc as [Hnew _].
    apply Hnew. rewrite <- Hname. apply list_elem_of_fmap. eauto.
Qed.

Lemma create_then_delete_entities_witness :
  exists s2, deleteEntities (name <$> [bob]) (createEntities [alice; bob] alone).2
               = (Returned tt, s2) /\
             loadGraph s2 =
               (Returned {| entities := [alice]; relations := [] |}, s2).
Proof.
  apply (create_then_delete_entities [alice; bob] [bob] alone _
           {| entities := [alice]; relations := [] |}).
  - vm_compute. reflexivity.
  - vm_compute. reflexivity.
  - intros r Hr. inversion Hr.
Defined.

Lemma not_doomed_iff (doomed : list Relation) (r : Relation) :
  ~ Exists (fun delRelation => sameTriple r delRelation) doomed <->
  triple r ∉ triple <$> doomed.
Proof.
  rewrite Exists_exists, list_elem_of_fmap.
  split; intros H (x & H1 & H2); apply H; exists x.
  - split; [done |]. by apply sameTriple_triple.
  - split; [| done]. by apply sameTriple_triple.
Qed.

Lemma deleteRelations_stored (doomed : list Relation) (data : string)
    (graph : KnowledgeGraph) :
  decode data = Returned graph ->
  deleteRelations doomed (Stored data) =
  (Returned tt,
   Stored (encode
     {| entities := entities graph;
        relations := filter (fun r => triple r ∉ triple <$> doomed) (relations graph) |})).
Proof.
  intros Hdec. unfold deleteRelations.
  rewrite bind_run, (loadGraph_Stored _ _ Hdec), saveGraph_run.
  do 5 f_equal. apply list_filter_iff, not_doomed_iff.
Qed.

(** X19.  Deleting the relations that a call of [createRelations]
    returned restores the graph that the file held before the call. *)
Theorem create_then_delete_relations (candidates created : list Relation)
    (s s1 : store) (graph : KnowledgeGraph) :
  (loadGraph s).1 = Returned graph ->
  createRelations candidates s = (Returned created, s1) ->
  exists s2, deleteRelations created s1 = (Returned tt, s2) /\
             loadGraph s2 = (Returned graph, s2).
Proof.
  intros Hload Hrun.
  destruct (createRelations_stored _ _ _ _ Hrun) as (graph' & Hload' & Hcreated & ->).
  assert (graph' = graph) as -> by congruence.
  eexists. split; [apply deleteRelations_stored, decode_encode |].
  cbn [entities relations]. rewrite filter_app.
  rewrite (filter_all _ (relations graph)), (filter_none _ created), app_nil_r.
  - destruct graph as [es rs]. apply loadGraph_encode.
  - intros c Hc Hnot. apply Hnot, list_elem_of_fmap. eauto.
  - apply Forall_forall. intros r Hr (c & Hname & Hc)%list_elem_of_fmap.
    rewrite Hcreated in Hc. apply list_elem_of_filter in Hc as [Hnew _].
    apply Hnew. rewrite <- Hname. apply list_elem_of_fmap. eauto.
Qed.

Lemma create_then_delete_relations_witness :
  exists s2, deleteRelations [admires]
               (createRelations [knows; admires] acquainted).2 = (Returned tt, s2) /\
             loadGraph s2 =
               (Returned {| entities := [alice; bob]; relations := [knows] |}, s2).
Proof.
  apply (create_then_delete_relations [knows; admires] [admires] acquainted _
           {| entities := [alice; bob]; relations := [knows] |}).
  - vm_compute. reflexivity.
  - vm_compute. reflexivity.
Defined.

Lemma purged_split (d : Deletion.t) (deletions : list Deletion.t) (e : Entity) :
  purged (d :: deletions) e = purged [d] (purged deletions e).
Proof.
  unfold purged. cbn [name entityType observations]. f_equal.
  rewrite list_filter_filter. apply list_filter_iff. intros o.
  unfold listed. cbn [name]. rewrite !Exists_cons, Exists_nil. tauto.
Qed.

Lemma filter_app_fresh (O contents : list string) :
  filter (fun o => o ∉ filter (fun c => c ∉ O) contents)
         (O ++ filter (fun c => c ∉ O) contents) = O.
Proof.
  rewrite filter_app, filter_all, filter_none; [by rewrite app_nil_r | |].
  - intros c Hc Hnot. done.
  - apply Forall_forall. intros o Ho [Hnot _]%list_elem_of_filter. done.
Qed.

(** On distinct names, deleting what one addition reports restores the
    entities it was applied to. *)
Lemma addObservation_undo (ents ents' : list Entity) (o : Addition.t) (a : Added.t) :
  NoDup (name <$> ents) ->
  addObservation ents o = Returned (a, ents') ->
  purged [undo a] <$> ents' = ents.
Proof.
  intros Hnodup. unfold addObservation.
  destruct (list_find _ ents) as [[i e]|] eqn:Hfind; [| done].
  intros [= <- <-].
  apply list_find_Some in Hfind as (Hi & Hname & _).
  rewrite list_fmap_insert.
  assert (purged [undo {| Added.entityName := Addition.entityName o;
               Added.addedObservations :=
                 filter (fun content => content ∉ observations e) (Addition.contents o) |}]
            <$> ents = ents) as ->.
  { rewrite <- (list_fmap_id ents) at 2. apply Forall_fmap_ext_1, Forall_forall.
    intros x Hx. destruct (decide (name x = Addition.entityName o)) as [Hx'|Hx'].
    - assert (x = e) as ->.
      { apply list_elem_of_lookup in Hx as [j Hj].
        assert ((name <$> ents) !! j = Some (name x)) as Hj'
          by (by rewrite list_lookup_fmap, Hj).
        assert ((name <$> ents) !! i = Some (name x)) as Hi'
          by (rewrite list_lookup_fmap, Hi; cbn; congruence).
        pose proof (NoDup_lookup _ _ _ _ Hnodup Hj' Hi') as ->. congruence. }
      rewrite purged_same by done. destruct e as [n t O]. cbn. f_equal.
      apply filter_all, Forall_forall. intros c Hc [Hnot _]%list_elem_of_filter. done.
    - by apply purged_other. }
  rewrite purged_same by done. cbn [name entityType observations undo
    Added.addedObservations Deletion.observations].
  rewrite filter_app_fresh. destruct e as [n t O]. by apply list_insert_id.
Qed.

Lemma addAll_undo (items : list Addition.t) (ents ents' : list Entity)
    (results : list Added.t) :
  NoDup (name <$> ents) ->
  addAll items ents = Returned (results, ents') ->
  purged (undo <$> results) <$> ents' = ents.
Proof.
  revert ents results. induction items as [|o items IH]; intros ents results Hnodup;
    cbn [addAll].
  - intros [= <- <-]. cbn. rewrite <- (list_fmap_id ents) at 2.
    apply Forall_fmap_ext_1, Forall_forall. intros [n t O] _. unfold purged. cbn.
    f_equal. apply filter_all, Forall_forall. intros c _ H. inversion H.
  - destruct (addObservation ents o) as [[added ents1]|e] eqn:Hadd; [| done].
    cbn [mbind result_bind].
    destruct (addAll items ents1) as [[results' ents2]|e] eqn:Hall; [| done].
    intros [= <- <-]. rewrite fmap_cons.
    assert (NoDup (name <$> ents1)) as Hnodup1
      by (by rewrite (addObservation_names _ _ _ _ Hadd)).
    rewrite <- (addObservation_undo _ _ _ _ Hnodup Hadd).
    rewrite <- (IH _ _ Hnodup1 Hall).
    rewrite <- list_fmap_compose. apply Forall_fmap_ext_1, Forall_forall.
    intros e _. apply purged_split.
Qed.

(** X20.  On a graph whose names are distinct, deleting what a call of
    [addObservations] reports as added restores the graph that the file
    held before the call. *)
Theorem add_then_undo_observations (items : list Addition.t) (results : list Added.t)
    (s s1 : store) (graph : KnowledgeGraph) :
  (loadGraph s).1 = Returned graph ->
  NoDup (name <$> entities graph) ->
  addObservations items s = (Returned results, s1) ->
  exists s2, deleteObservations (undo <$> results) s1 = (Returned tt, s2) /\
             loadGraph s2 = (Returned graph, s2).
Proof.
  intros Hload Hnodup Hrun.
  destruct (addObservations_run s graph Hload _ _ _ Hrun) as (ents & Hall & Hload1).
  destruct (load_of_Returned _ _ _ _ Hrun) as (graph' & Hload' & Hsave).
  assert (graph' = graph) as -> by congruence.
  rewrite bind_run in Hsave. unfold lift in Hsave. rewrite Hall in Hsave.
  apply saved_store in Hsave as ->.
  eexists. split.
  - unfold deleteObservations. rewrite bind_run, loadGraph_encode, saveGraph_run.
    reflexivity.
  - cbn [entities relations]. rewrite deleteObservations_fmap.
    + rewrite (addAll_undo _ _ _ _ Hnodup Hall). destruct graph as [es rs].
      apply loadGraph_encode.
    + by rewrite (addAll_names _ _ _ _ Hall).
Qed.

Lemma add_then_undo_observations_witness :
  exists s2,
    deleteObservations
      (undo <$> [ {| Added.entityName := "Alice";
                     Added.addedObservations := ["Drinks tea"] |};
                  {| Added.entityName := "Alice"; Added.addedObservations := [] |} ])
      (addObservations coffee_twice acquainted).2 = (Returned tt, s2) /\
    loadGraph s2 =
      (Returned {| entities := [alice; bob]; relations := [knows] |}, s2).
Proof.
  apply (add_then_undo_observations coffee_twice _ acquainted _
           {| entities := [alice; bob]; relations := [knows] |}).
  - vm_compute. reflexivity.
  - cbn. repeat constructor; compute_done.
  - vm_compute. reflexivity.
Defined.

Lemma empty_batches_run (s : store) (graph : KnowledgeGraph) :
  (loadGraph s).1 = Returned graph ->
  writable s ->
  createEntities [] s = (Returned [], Stored (encode graph)) /\
  createRelations [] s = (Returned [], Stored (encode graph)) /\
  addObservations [] s = (Returned [], Stored (encode graph)) /\
  deleteEntities [] s = (Returned tt, Stored (encode graph)) /\
  deleteObservations [] s = (Returned tt, Stored (encode graph)) /\
  deleteRelations [] s = (Returned tt, Stored (encode graph)).
Proof.
  intros Hload%loadGraph_run Hw. destruct graph as [es rs].
  unfold createEntities, createRelations, addObservations, deleteEntities,
    deleteObservations, deleteRelations.
  rewrite !bind_run, !Hload. cbn [addAll lift entities relations fold_left].
  rewrite !bind_run, !saveGraph_run, !filter_nil, !app_nil_r.
  rewrite (filter_all _ es), (filter_all _ rs), (filter_all _ rs).
  - destruct s; cbn in Hw; done.
  - apply Forall_forall. intros r _ H. inversion H.
  - apply Forall_forall. intros r _. split; apply not_elem_of_nil.
  - apply Forall_forall. intros e _. apply not_elem_of_nil.
Qed.

(** X21.  On a file that loads and can be written, each of the six
    mutating operations called with an empty batch returns nothing new and
    writes a text that holds the graph as it was; a missing file is
    created. *)
Theorem empty_batches (s : store) (graph : KnowledgeGraph) :
  (loadGraph s).1 = Returned graph ->
  writable s ->
  rewrites (createEntities []) [] s graph /\
  rewrites (createRelations []) [] s graph /\
  rewrites (addObservations []) [] s graph /\
  rewrites (deleteEntities []) tt s graph /\
  rewrites (deleteObservations []) tt s graph /\
  rewrites (deleteRelations []) tt s graph.
Proof.
  intros Hload Hw.
  destruct (empty_batches_run s graph Hload Hw) as (H1 & H2 & H3 & H4 & H5 & H6).
  split_and!; exists (encode graph); (split; [done | apply decode_encode]).
Qed.

Lemma empty_batches_witness :
  rewrites (createEntities []) [] acquainted
    {| entities := [alice; bob]; relations := [knows] |} /\
  rewrites (createRelations []) [] acquainted
    {| entities := [alice; bob]; relations := [knows] |} /\
  rewrites (addObservations []) [] acquainted
    {| entities := [alice; bob]; relations := [knows] |} /\
  rewrites (deleteEntities []) tt acquainted
    {| entities := [alice; bob]; relations := [knows] |} /\
  rewrites (deleteObservations []) tt acquainted
    {| entities := [alice; bob]; relations := [knows] |} /\
  rewrites (deleteRelations []) tt acquainted
    {| entities := [alice; bob]; relations := [knows] |}.
Proof.
  apply (empty_batches acquainted {| entities := [alice; bob]; relations := [knows] |});
    [vm_compute; reflexivity | exact I].
Defined.

(** ** Reading back what [JSON.stringify] wrote with an indent *)

Lemma json_induction (P : JSON.json -> Prop) :
  P JSON.JNull ->
  (forall b, P (JSON.JBool b)) ->
  (forall literal, P (JSON.JNumber literal)) ->
  (forall s, P (JSON.JString s)) ->
  (forall items, Forall P items -> P (JSON.JArray items)) ->
  (forall members, Forall (fun m => P (snd m)) members -> P (JSON.JObject members)) ->
  forall v, P v.
Proof.
  intros Hnull Hbool Hnum Hstr Harr Hobj. fix IH 1.
  intros [|b|literal|s|items|members];
    [apply Hnull | apply Hbool | apply Hnum | apply Hstr | |].
  - apply Harr. induction items as [|v items IHitems]; constructor; [apply IH | exact IHitems].
  - apply Hobj. induction members as [|[k v] members IHm]; constructor;
      [apply IH | exact IHm].
Qed.

Lemma skipped_nil : skipped "".
Proof. by intros r. Qed.

Lemma skipped_append (a b : string) : skipped a -> skipped b -> skipped (a +:+ b).
Proof. intros Ha Hb r. by rewrite append_assoc, Ha, Hb. Qed.

Lemma skipped_cons (c : ascii) (w : string) :
  JSON.is_ws c = true -> skipped w -> skipped (String c w).
Proof. intros Hc Hw r. rewrite append_cons. cbn [JSON.skip_ws]. by rewrite Hc. Qed.

Lemma skipped_deeper (indent : string) : skipped indent -> skipped (indent +:+ "  ").
Proof. intros H. apply skipped_append; [done |]. by intros r. Qed.

Lemma skipped_line (indent : string) :
  skipped indent -> skipped (String Text.newline indent).
Proof. by apply skipped_cons. Qed.

Lemma skip_ws_idem (s : string) : JSON.skip_ws (JSON.skip_ws s) = JSON.skip_ws s.
Proof.
  induction s as [|c s IH]; [done |]. cbn [JSON.skip_ws].
  destruct (JSON.is_ws c) eqn:Hc; [done |]. cbn [JSON.skip_ws]. by rewrite Hc.
Qed.

Lemma parse_value_skip_ws (fuel : nat) (s : string) :
  JSON.parse_value fuel (JSON.skip_ws s) = JSON.parse_value fuel s.
Proof. destruct fuel; [done |]. cbn [JSON.parse_value]. by rewrite skip_ws_idem. Qed.

Lemma parse_value_skipped (fuel : nat) (w s : string) :
  skipped w -> JSON.parse_value fuel (w +:+ s) = JSON.parse_value fuel s.
Proof.
  intros Hw. by rewrite <- parse_value_skip_ws, Hw, parse_value_skip_ws.
Qed.

Lemma parse_elements_skipped (fuel : nat) (w s : string) :
  skipped w -> JSON.parse_elements fuel (w +:+ s) = JSON.parse_elements fuel s.
Proof.
  intros Hw. destruct fuel; [done |].
  by rewrite !parse_elements_S, parse_value_skipped.
Qed.

Lemma parse_members_skip_ws (fuel : nat) (s : string) :
  JSON.parse_members fuel (JSON.skip_ws s) = JSON.parse_members fuel s.
Proof. destruct fuel; [done |]. cbn [JSON.parse_members]. by rewrite skip_ws_idem. Qed.

Lemma parse_members_skipped (fuel : nat) (w s : string) :
  skipped w -> JSON.parse_members fuel (w +:+ s) = JSON.parse_members fuel s.
Proof.
  intros Hw. by rewrite <- parse_members_skip_ws, Hw, parse_members_skip_ws.
Qed.

Lemma parse_members_open (fuel : nat) (s : string) :
  JSON.parse_members (S fuel) s =
  match JSON.skip_ws s with
  | String q r =>
      if Ascii.eqb q Text.dquote then
        '(key, r1) ← JSON.parse_chars r;
        match JSON.skip_ws r1 with
        | String c r2 =>
            if Ascii.eqb c ":" then
              '(v, r3) ← JSON.parse_value fuel r2;
              match JSON.skip_ws r3 with
              | String c' r4 =>
                  if Ascii.eqb c' "," then
                    '(ms, rest) ← JSON.parse_members fuel r4;
                    Some ((key, v) :: ms, rest)
                  else if Ascii.eqb c' "}" then Some ([(key, v)], r4)
                  else None
              | EmptyString => None
              end
            else None
        | EmptyString => None
        end
      else None
  | EmptyString => None
  end.
Proof. reflexivity. Qed.

Section Indented.

Variables (indent : string) (n : nat).
Hypothesis Hindent : skipped indent.

Let inner : string := indent +:+ "  ".
Let separator : string := String "," (String Text.newline inner).

Lemma skipped_inner : skipped inner.
Proof. by apply skipped_deeper. Qed.

Lemma skip_to_close (c : ascii) (rest : string) :
  JSON.is_ws c = false ->
  JSON.skip_ws (String Text.newline (indent +:+ String c rest)) = String c rest.
Proof.
  intros Hc. change (String Text.newline (indent +:+ String c rest))
    with (String Text.newline indent +:+ String c rest).
  rewrite (skipped_line _ Hindent). by apply skip_ws_stop.
Qed.

Lemma parse_elements_at (v : JSON.json) (vs : list JSON.json)
    (fuel : nat) (rest : string) :
  Forall (reads_back_at inner n) (v :: vs) ->
  n + S (length vs) <= fuel ->
  JSON.parse_elements fuel
    (Text.join separator (map (stringifyIndent inner) (v :: vs)) +:+
     String Text.newline (indent +:+ String "]" rest)) =
  Some (v :: vs, rest).
Proof.
  revert v fuel. induction vs as [|v' vs IH]; intros v fuel Hall Hfuel;
    (destruct fuel as [|fuel]; [simpl in Hfuel; lia |]);
    rewrite parse_elements_S; inversion_clear Hall as [|? ? Hv Hvs].
  - cbn [map Text.join]. rewrite Hv by (simpl in Hfuel; lia).
    cbv beta iota zeta delta [mbind option_bind].
    rewrite skip_to_close by done. reflexivity.
  - cbn [map]. rewrite join_cons2, !append_assoc.
    rewrite Hv by (simpl in Hfuel; lia).
    unfold separator at 1. rewrite append_cons. parser_step.
    rewrite append_cons.
    change (String Text.newline (inner +:+ ?x)) with (String Text.newline inner +:+ x).
    rewrite parse_elements_skipped by apply skipped_line, skipped_inner.
    cbn [map] in IH. rewrite IH by (simpl in Hfuel; done || lia).
    reflexivity.
Qed.

Lemma stringifyIndent_array (v : JSON.json) (vs : list JSON.json) (rest : string) :
  stringifyIndent indent (JSON.JArray (v :: vs)) +:+ rest =
  String "[" (String Text.newline inner +:+
    (Text.join separator (map (stringifyIndent inner) (v :: vs)) +:+
     String Text.newline (indent +:+ String "]" rest))).
Proof.
  change (stringifyIndent indent (JSON.JArray (v :: vs))) with
    ("[" +:+ String Text.newline inner +:+
     Text.join separator (map (stringifyIndent inner) (v :: vs)) +:+
     String Text.newline indent +:+ "]").
  by norm_append.
Qed.

Lemma join_opens (sep : string) (p : string) (ps : list string) (rest : string) :
  opens p -> opens (Text.join sep (p :: ps) +:+ rest).
Proof.
  intros (c & r & -> & Hc). destruct ps; cbn [Text.join]; rewrite append_cons;
    by eexists _, _.
Qed.

Lemma reads_back_at_array (vs : list JSON.json) :
  Forall (reads_back_at inner n) vs ->
  Forall (fun v => opens (stringifyIndent inner v)) vs ->
  reads_back_at indent (n + S (length vs)) (JSON.JArray vs).
Proof.
  intros Hall Hopen [|fuel] rest Hfuel; [lia |].
  destruct vs as [|v vs]; [done |].
  rewrite stringifyIndent_array, parse_value_bracket.
  inversion_clear Hopen as [|? ? Hv _].
  destruct (join_opens separator _ (map (stringifyIndent inner) vs)
              (String Text.newline (indent +:+ String "]" rest)) Hv)
    as (c & r & Hr & Hws & Hc & _).
  pose proof (parse_elements_at v vs fuel rest Hall) as Hparse.
  cbn [map] in *. rewrite (skipped_line _ skipped_inner), Hr, skip_ws_stop by done.
  cbv beta iota. rewrite Hc, <- Hr.
  rewrite parse_elements_skipped by apply skipped_line, skipped_inner.
  rewrite Hparse; [reflexivity |]. simpl in Hfuel |- *. lia.
Qed.

Lemma member_line_append (k : string) (v : JSON.json) (rest : string) :
  member_line inner (k, v) +:+ rest =
  String Text.dquote
    (JSON.escaped k +:+
     String Text.dquote (String ":" (" " +:+ (stringifyIndent inner v +:+ rest)))).
Proof.
  unfold member_line. cbn [fst snd].
  rewrite append_assoc, quote_append. by norm_append.
Qed.

Lemma parse_members_at (m : string * JSON.json) (ms : list (string * JSON.json))
    (fuel : nat) (rest : string) :
  Forall (fun m => reads_back_at inner n (snd m)) (m :: ms) ->
  n + S (length ms) <= fuel ->
  JSON.parse_members fuel
    (Text.join separator (map (member_line inner) (m :: ms)) +:+
     String Text.newline (indent +:+ String "}" rest)) =
  Some (m :: ms, rest).
Proof.
  revert m fuel. induction ms as [|m' ms IH]; intros [k v] fuel Hall Hfuel;
    (destruct fuel as [|fuel]; [simpl in Hfuel; lia |]);
    inversion_clear Hall as [|? ? Hv Hvs]; cbn [snd] in Hv.
  - cbn [map Text.join]. rewrite member_line_append, parse_members_S.
    rewrite parse_chars_escaped. parser_step.
    rewrite parse_value_skipped by (by intros r).
    rewrite Hv by (simpl in Hfuel; lia).
    cbv beta iota zeta delta [mbind option_bind].
    rewrite skip_to_close by done. reflexivity.
  - cbn [map]. rewrite join_cons2, !append_assoc.
    rewrite member_line_append, parse_members_S.
    rewrite parse_chars_escaped. parser_step.
    rewrite parse_value_skipped by (by intros r).
    rewrite Hv by (simpl in Hfuel; lia).
    unfold separator at 1. rewrite append_cons. parser_step.
    rewrite append_cons.
    change (String Text.newline (inner +:+ ?x)) with (String Text.newline inner +:+ x).
    rewrite parse_members_skipped by apply skipped_line, skipped_inner.
    cbn [map] in IH. rewrite IH by (simpl in Hfuel; done || lia).
    reflexivity.
Qed.

Lemma stringifyIndent_object (m : string * JSON.json) (ms : list (string * JSON.json))
    (rest : string) :
  stringifyIndent indent (JSON.JObject (m :: ms)) +:+ rest =
  String "{" (String Text.newline inner +:+
    (Text.join separator (map (member_line inner) (m :: ms)) +:+
     String Text.newline (indent +:+ String "}" rest))).
Proof.
  change (stringifyIndent indent (JSON.JObject (m :: ms))) with
    ("{" +:+ String Text.newline inner +:+
     Text.join separator (map (member_line inner) (m :: ms)) +:+
     String Text.newline indent +:+ "}").
  by norm_append.
Qed.

Lemma reads_back_at_object (ms : list (string * JSON.json)) :
  Forall (fun m => reads_back_at inner n (snd m)) ms ->
  reads_back_at indent (n + S (length ms)) (JSON.JObject ms).
Proof.
  intros Hall [|fuel] rest Hfuel; [lia |].
  destruct ms as [|[k v] ms]; [done |].
  rewrite stringifyIndent_object, parse_value_brace.
  pose proof (parse_members_at (k, v) ms fuel rest Hall) as Hparse.
  assert (exists r, Text.join separator (map (member_line inner) ((k, v) :: ms)) +:+
                    String Text.newline (indent +:+ String "}" rest)
                    = String Text.dquote r) as [r Hr].
  { destruct ms; cbn [map Text.join]; rewrite ?append_assoc, member_line_append;
      by eexists. }
  rewrite (skipped_line _ skipped_inner), Hr, skip_ws_stop by done.
  cbv beta iota. change (Ascii.eqb Text.dquote "}") with false. cbv iota.
  rewrite <- Hr. rewrite parse_members_skipped by apply skipped_line, skipped_inner.
  rewrite Hparse; [reflexivity |]. simpl in Hfuel |- *. lia.
Qed.

End Indented.

Lemma reads_back_at_mono (indent : string) (n n' : nat) (v : JSON.json) :
  n <= n' -> reads_back_at indent n v -> reads_back_at indent n' v.
Proof. intros Hn Hv fuel rest Hfuel. apply Hv. lia. Qed.

Lemma le_foldr_max (x : nat) (l : list nat) : x ∈ l -> x <= foldr max 0 l.
Proof.
  induction 1 as [x l|x y l Hx IH]; cbn [foldr]; lia.
Qed.

Lemma plain_reads_back (v : JSON.json) :
  plain v = true ->
  forall indent, skipped indent ->
    reads_back_at indent (cost v) v /\ opens (stringifyIndent indent v).
Proof.
  induction v as [|b|literal|s|items IH|members IH] using json_induction;
    intros Hplain indent Hindent.
  - split; [intros [|fuel] rest Hfuel; [cbn in Hfuel; lia | reflexivity] | by eexists _, _].
  - split; [intros [|fuel] rest Hfuel; [cbn in Hfuel; lia | by destruct b]
           | destruct b; by eexists _, _].
  - done.
  - split; [intros [|fuel] rest Hfuel; [cbn in Hfuel; lia | apply parse_value_quote]
           | by eexists _, _].
  - split.
    + cbn [cost]. apply reads_back_at_array; [done | |].
      * cbn [plain] in Hplain. rewrite forallb_forall in Hplain.
        rewrite Forall_forall in IH |- *. intros v Hv.
        eapply reads_back_at_mono; [| apply IH; [done | | by apply skipped_deeper]].
        -- apply le_foldr_max. apply list_elem_of_In, in_map, list_elem_of_In, Hv.
        -- apply Hplain. by apply list_elem_of_In.
      * cbn [plain] in Hplain. rewrite forallb_forall in Hplain.
        rewrite Forall_forall in IH |- *. intros v Hv.
        apply IH; [done | | by apply skipped_deeper].
        apply Hplain. by apply list_elem_of_In.
    + destruct items; by eexists _, _.
  - split.
    + cbn [cost]. apply reads_back_at_object; [done |].
      cbn [plain] in Hplain. rewrite forallb_forall in Hplain.
      rewrite Forall_forall in IH |- *. intros m Hm.
      eapply reads_back_at_mono; [| apply IH; [done | | by apply skipped_deeper]].
      * apply le_foldr_max.
        apply list_elem_of_In, (in_map (fun m => cost (snd m))), list_elem_of_In, Hm.
      * apply Hplain. by apply list_elem_of_In.
    + destruct members; by eexists _, _.
Qed.

Lemma join_length (sep : string) (parts : list string) (costs : list nat) :
  1 <= String.length sep ->
  Forall2 (fun c p => c <= String.length p) costs parts ->
  foldr max 0 costs + length parts <= String.length (Text.join sep parts) + 1.
Proof.
  intros Hsep. induction 1 as [|c p costs parts Hc Hrest IH]; [cbn; lia |].
  destruct parts as [|p' parts].
  - inversion Hrest. cbn. lia.
  - rewrite join_cons2, !length_append. cbn [foldr length] in *. lia.
Qed.

Lemma cost_length (v : JSON.json) :
  plain v = true ->
  forall indent, cost v <= String.length (stringifyIndent indent v).
Proof.
  induction v as [|b|literal|s|items IH|members IH] using json_induction;
    intros Hplain indent.
  - cbn. lia.
  - destruct b; cbn; lia.
  - done.
  - cbn. lia.
  - destruct items as [|v vs]; [cbn; lia |].
    change (stringifyIndent indent (JSON.JArray (v :: vs))) with
      ("[" +:+ String Text.newline (indent +:+ "  ") +:+
       Text.join ("," +:+ String Text.newline (indent +:+ "  "))
         (map (stringifyIndent (indent +:+ "  ")) (v :: vs)) +:+
       String Text.newline indent +:+ "]").
    rewrite !length_append. cbn [cost String.length].
    pose proof (join_length ("," +:+ String Text.newline (indent +:+ "  "))
                  (map (stringifyIndent (indent +:+ "  ")) (v :: vs))
                  (map cost (v :: vs))) as Hjoin.
    rewrite length_map in Hjoin.
    specialize (Hjoin ltac:(rewrite append_cons; cbn [String.length]; lia)).
    cbn [plain] in Hplain. rewrite forallb_forall in Hplain.
    assert (Forall2 (fun c p => c <= String.length p) (map cost (v :: vs))
              (map (stringifyIndent (indent +:+ "  ")) (v :: vs))) as Hall.
    { apply Forall2_fmap, Forall_Forall2_diag. rewrite Forall_forall in IH |- *.
      intros x Hx. apply IH; [done |]. apply Hplain. by apply list_elem_of_In. }
    specialize (Hjoin Hall). lia.
  - destruct members as [|m ms]; [cbn; lia |].
    change (stringifyIndent indent (JSON.JObject (m :: ms))) with
      ("{" +:+ String Text.newline (indent +:+ "  ") +:+
       Text.join ("," +:+ String Text.newline (indent +:+ "  "))
         (map (member_line (indent +:+ "  ")) (m :: ms)) +:+
       String Text.newline indent +:+ "}").
    rewrite !length_append. cbn [cost String.length].
    pose proof (join_length ("," +:+ String Text.newline (indent +:+ "  "))
                  (map (member_line (indent +:+ "  ")) (m :: ms))
                  (map (fun m => cost (snd m)) (m :: ms))) as Hjoin.
    rewrite length_map in Hjoin.
    specialize (Hjoin ltac:(rewrite append_cons; cbn [String.length]; lia)).
    cbn [plain] in Hplain. rewrite forallb_forall in Hplain.
    assert (Forall2 (fun c p => c <= String.length p)
              (map (fun m => cost (snd m)) (m :: ms))
              (map (member_line (indent +:+ "  ")) (m :: ms))) as Hall.
    { apply Forall2_fmap, Forall_Forall2_diag. rewrite Forall_forall in IH |- *.
      intros x Hx. unfold member_line. rewrite !length_append.
      specialize (IH x Hx (Hplain x ltac:(by apply list_elem_of_In)) (indent +:+ "  ")).
      lia. }
    specialize (Hjoin Hall). lia.
Qed.

Lemma parse_pretty (v : JSON.json) :
  plain v = true -> JSON.parse (pretty v) = Some v.
Proof.
  intros Hplain. unfold JSON.parse, pretty.
  destruct (plain_reads_back v Hplain "" skipped_nil) as [Hback _].
  rewrite <- (append_empty (stringifyIndent "" v)) at 2.
  rewrite Hback; [done |].
  pose proof (cost_length v Hplain ""). lia.
Qed.

(** ** Properties of the tool-call handler *)

Lemma mapM_back {A : Type} (cast : JSON.json -> option A) (toJSON : A -> JSON.json)
    (l : list A) :
  (forall x, cast (toJSON x) = Some x) -> mapM cast (toJSON <$> l) = Some l.
Proof.
  intros Hback. induction l as [|x l IH]; [done |].
  rewrite fmap_cons. cbn [mapM]. rewrite Hback, IH. reflexivity.
Qed.

Lemma plain_all {A : Type} (toJSON : A -> JSON.json) (l : list A) :
  (forall x, plain (toJSON x) = true) -> plain (JSON.JArray (toJSON <$> l)) = true.
Proof.
  intros Hplain. cbn [plain]. induction l as [|x l IH]; [done |].
  rewrite fmap_cons. cbn [forallb]. by rewrite Hplain, IH.
Qed.

Lemma plain_strings (l : list string) : plain (JSON.JArray (JSON.JString <$> l)) = true.
Proof. by apply plain_all. Qed.

Lemma strings_back (l : list string) :
  asList asString (JSON.JArray (JSON.JString <$> l)) = Some l.
Proof. by apply mapM_back. Qed.

Lemma plain_entityObject (e : Entity) : plain (entityObject e) = true.
Proof.
  unfold entityObject. cbn [plain forallb snd].
  pose proof (plain_strings (observations e)) as H. cbn [plain] in H. by rewrite H.
Qed.

Lemma plain_entityRecord (e : Entity) : plain (entityRecord e) = true.
Proof.
  unfold entityRecord. cbn [plain forallb snd].
  change (map JSON.JString (observations e)) with (JSON.JString <$> observations e).
  pose proof (plain_strings (observations e)) as H. cbn [plain] in H. by rewrite H.
Qed.

Lemma plain_relationObject (r : Relation) : plain (relationObject r) = true.
Proof. reflexivity. Qed.

Lemma plain_relationRecord (r : Relation) : plain (relationRecord r) = true.
Proof. reflexivity. Qed.

Lemma plain_addedObject (a : Added.t) : plain (addedObject a) = true.
Proof.
  unfold addedObject. cbn [plain forallb snd].
  pose proof (plain_strings (Added.addedObservations a)) as H. cbn [plain] in H.
  by rewrite H.
Qed.

Lemma plain_graphObject (graph : KnowledgeGraph) : plain (graphObject graph) = true.
Proof.
  unfold graphObject. cbn [plain forallb snd].
  pose proof (plain_all entityRecord (entities graph) plain_entityRecord) as He.
  pose proof (plain_all relationRecord (relations graph) plain_relationRecord) as Hr.
  cbn [plain] in He, Hr. by rewrite He, Hr.
Qed.

Lemma entityObject_back (e : Entity) : asEntity (entityObject e) = Some e.
Proof.
  destruct e as [n t obs]. unfold asEntity, entityObject, field.
  cbn -[mapM fmap]. pose proof (strings_back obs) as H. cbn [asList] in H.
  rewrite H. reflexivity.
Qed.

Lemma relationObject_back (r : Relation) : asRelation (relationObject r) = Some r.
Proof. by destruct r. Qed.

Lemma addedObject_back (a : Added.t) : asAdded (addedObject a) = Some a.
Proof.
  destruct a as [n obs]. unfold asAdded, addedObject, field.
  cbn -[asList fmap]. rewrite strings_back. reflexivity.
Qed.

Lemma graphObject_back (graph : KnowledgeGraph) : asGraph (graphObject graph) = Some graph.
Proof.
  destruct graph as [es rs]. unfold asGraph, graphObject.
  cbn -[asList fmap]. cbn [asList].
  rewrite (mapM_back asEntity entityRecord es asEntity_entityRecord).
  cbn -[mapM fmap].
  rewrite (mapM_back asRelation relationRecord rs asRelation_relationRecord).
  reflexivity.
Qed.

Lemma tells_pretty {B : Type} (cast : JSON.json -> option B) (v : JSON.json) (result : B) :
  plain v = true -> cast v = Some result -> tells cast (textReply (pretty v)) v result.
Proof.
  intros Hplain Hcast. split; [done |]. by rewrite parse_pretty.
Qed.

Lemma mapM_exact {A : Type} (cast : JSON.json -> option A) (toJSON : A -> JSON.json)
    (items : list JSON.json) (l : list A) :
  (forall item x, cast item = Some x -> item = toJSON x) ->
  mapM cast items = Some l -> items = toJSON <$> l.
Proof.
  intros Hexact. revert l. induction items as [|item items IH]; intros l.
  - by intros [= <-].
  - cbn [mapM]. destruct (cast item) as [x|] eqn:Hx; [| done].
    destruct (mapM cast items) as [l'|]; [| done].
    intros [= <-]. rewrite fmap_cons. f_equal; [by apply Hexact | by apply IH].
Qed.

Lemma asList_exact {A : Type} (cast : JSON.json -> option A) (toJSON : A -> JSON.json)
    (v : JSON.json) (l : list A) :
  (forall item x, cast item = Some x -> item = toJSON x) ->
  asList cast v = Some l -> v = JSON.JArray (toJSON <$> l).
Proof.
  intros Hexact. destruct v as [| | | |items|]; try done.
  cbn [asList]. intros H. f_equal. by eapply mapM_exact.
Qed.

Lemma asString_exact (item : JSON.json) (x : string) :
  asString item = Some x -> item = JSON.JString x.
Proof. destruct item; try done. by intros [= ->]. Qed.

(** A request object fits [exactEntity] when it is what [entityObject]
    writes of the record. *)
Lemma exactEntity_exact (item : JSON.json) (e : Entity) :
  exactEntity item = Some e -> item = entityObject e.
Proof.
  unfold exactEntity.
  destruct item as [| | | | |[|[k1 [| | |n| |]] [|[k2 [| | |t| |]] [|[k3 [| | | |items|]] [|]]]]];
    try done.
  destruct (String.eqb_spec k1 "name") as [->|]; [| done].
  destruct (String.eqb_spec k2 "entityType") as [->|]; [| done].
  destruct (String.eqb_spec k3 "observations") as [->|]; [| done].
  cbn [andb]. destruct (mapM asString items) as [obs|] eqn:Hobs; [| done].
  intros [= <-]. unfold entityObject. cbn [name entityType observations].
  rewrite (mapM_exact asString JSON.JString items obs asString_exact Hobs).
  reflexivity.
Qed.

Lemma exactRelation_exact (item : JSON.json) (r : Relation) :
  exactRelation item = Some r -> item = relationObject r.
Proof.
  unfold exactRelation.
  destruct item as [| | | | |[|[k1 [| | |f| |]] [|[k2 [| | |t| |]] [|[k3 [| | |k| |]] [|]]]]];
    try done.
  destruct (String.eqb_spec k1 "from") as [->|]; [| done].
  destruct (String.eqb_spec k2 "to") as [->|]; [| done].
  destruct (String.eqb_spec k3 "relationType") as [->|]; [| done].
  by intros [= <-].
Qed.

(** A case of the [switch] that casts one argument, awaits one operation
    and wraps what [reply] makes of its result. *)
Lemma tool_run {A B : Type} (as_ : JSON.json -> option A) (key : string)
    (op : A -> M B) (reply : B -> CallToolResult)
    (args : list (string * JSON.json)) (s : store) :
  rethrowing (x ← argument as_ key args; result ← await (op x); mret (reply result)) s =
  match JSON.get key args ≫= as_ with
  | None => (Failed Unfit, s)
  | Some x =>
      match op x s with
      | (Returned result, s') => (Replied (reply result), s')
      | (Thrown e, s') => (Failed (StoreError e), s')
      end
  end.
Proof.
  unfold argument. set (o := JSON.get key args ≫= as_).
  unfold rethrowing, await, mbind, Handler_bind, mret, Handler_ret, fail.
  destruct o as [x|]; [| done].
  by destruct (op x s) as [[result|e] s'].
Qed.

(** [canonical] lets a call through or stops it as [Unfit], and leaves
    the file as it found it. *)
Lemma canonical_run (s : store) :
  canonical s = (Replied tt, s) \/ canonical s = (Failed Unfit, s).
Proof.
  unfold canonical. destruct (readFile s) as [[data|e] s0]; [| by left].
  destruct (decode data) as [graph|e]; [| by left].
  destruct (String.eqb data (encode graph)); [by left | by right].
Qed.

(** A case of the [switch] that casts one argument, awaits one read
    operation and wraps what [reply] makes of its result. *)
Lemma read_tool_run {A B : Type} (as_ : JSON.json -> option A) (key : string)
    (op : A -> M B) (reply : B -> CallToolResult)
    (args : list (string * JSON.json)) (s : store) :
  rethrowing (x ← argument as_ key args; _ ← canonical; result ← await (op x);
              mret (reply result)) s =
  match JSON.get key args ≫= as_ with
  | None => (Failed Unfit, s)
  | Some x =>
      match canonical s with
      | (Failed f, _) => (Failed Unfit, s)
      | (Replied _, _) =>
          match op x s with
          | (Returned result, s') => (Replied (reply result), s')
          | (Thrown e, s') => (Failed (StoreError e), s')
          end
      end
  end.
Proof.
  unfold argument. set (o := JSON.get key args ≫= as_).
  unfold rethrowing, await, mbind, Handler_bind, mret, Handler_ret, fail.
  destruct o as [x|]; [| done].
  destruct (canonical_run s) as [-> | ->]; [| done].
  by destruct (op x s) as [[result|e] s'].
Qed.

Lemma read_graph_run (s : store) :
  rethrowing (_ ← canonical; result ← await readGraph;
              mret (textReply (pretty (graphObject result)))) s =
  match canonical s with
  | (Failed f, _) => (Failed Unfit, s)
  | (Replied _, _) =>
      match readGraph s with
      | (Returned result, s') => (Replied (textReply (pretty (graphObject result))), s')
      | (Thrown e, s') => (Failed (StoreError e), s')
      end
  end.
Proof.
  unfold rethrowing, await, mbind, Handler_bind, fail.
  destruct (canonical_run s) as [-> | ->]; [| done].
  by destruct (readGraph s) as [[result|e] s'].
Qed.

Lemma unknown_tool (name : string) (args : list (string * JSON.json)) (s : store) :
  name ∉ toolNames ->
  callTool name (Some args) s = (Failed (PlainError ("Unknown tool: " +:+ name)), s).
Proof.
  intros Hname. unfold callTool.
  repeat match goal with
  | |- context [String.eqb name ?t] =>
      let H := fresh in
      destruct (String.eqb_spec name t) as [H|H];
      [exfalso; apply Hname; rewrite H; unfold toolNames; set_solver |]
  end.
  reflexivity.
Qed.

(** X22.  The handler refuses a request without arguments and a request
    for a name that the server does not list, each with the message that
    carries the name, before it touches the file; for a listed name it
    throws no error of its own. *)
Theorem callTool_refusals (name : string) (s : store) :
  callTool name None s =
    (Failed (PlainError ("No arguments provided for tool: " +:+ name)), s) /\
  (name ∉ toolNames ->
   forall args, callTool name (Some args) s =
                (Failed (PlainError ("Unknown tool: " +:+ name)), s)) /\
  (name ∈ toolNames ->
   forall args message, (callTool name (Some args) s).1 <> Failed (PlainError message)).
Proof.
  split_and!; [done | intros H args; by apply unknown_tool |].
  intros Hname args message. unfold toolNames in Hname.
  repeat (apply elem_of_cons in Hname as [->|Hname]); [.. | by apply elem_of_nil in Hname];
    unfold callTool; cbn [String.eqb Ascii.eqb Bool.eqb];
    rewrite ?tool_run, ?read_tool_run, ?read_graph_run;
    repeat match goal with
    | |- context [match ?x with _ => _ end] => destruct x
    end; done.
Qed.

Lemma callTool_refusals_witness :
  callTool "drop_graph" (Some bob_request) acquainted =
  (Failed (PlainError ("Unknown tool: " +:+ "drop_graph")), acquainted).
Proof.
  apply (proj1 (proj2 (callTool_refusals "drop_graph" acquainted))).
  unfold toolNames. compute_done.
Defined.

Lemma settled_tool {A B : Type} (as_ : JSON.json -> option A) (key : string)
    (op : A -> M B) (reply : B -> CallToolResult) (args : list (string * JSON.json)) :
  (forall x, writesLast (op x)) ->
  settled (rethrowing (x ← argument as_ key args; result ← await (op x);
                       mret (reply result))).
Proof.
  intros Hop s f s'. rewrite tool_run.
  destruct (JSON.get key args ≫= as_) as [x|]; [| by intros [= <- <-]].
  destruct (op x s) as [[result|e] s0] eqn:Hrun; [done |].
  intros [= <- <-] Hgenuine. by eapply Hop.
Qed.

Lemma reading_tool {A B : Type} (as_ : JSON.json -> option A) (key : string)
    (op : A -> M B) (reply : B -> CallToolResult) (args : list (string * JSON.json)) :
  (forall x s, (op x s).2 = s) ->
  reading (rethrowing (x ← argument as_ key args; _ ← canonical;
                       result ← await (op x); mret (reply result))).
Proof.
  intros Hop s. rewrite read_tool_run.
  destruct (JSON.get key args ≫= as_) as [x|]; [| done].
  destruct (canonical s) as [[[]|f] s0]; [| done].
  specialize (Hop x s). by destruct (op x s) as [[result|e] s'].
Qed.

Lemma reading_read_graph :
  reading (rethrowing (_ ← canonical; result ← await readGraph;
                       mret (textReply (pretty (graphObject result))))).
Proof.
  intros s. rewrite read_graph_run.
  destruct (canonical s) as [[[]|f] s0]; [| done].
  pose proof (loadGraph_store s) as Hs. unfold readGraph.
  by destruct (loadGraph s) as [[g|e] s'].
Qed.

(** A call that never changes the file is settled. *)
Lemma reading_settled {A : Type} (h : Handler A) : reading h -> settled h.
Proof.
  intros Hh s f s' Hrun. specialize (Hh s). rewrite Hrun in Hh.
  destruct f; [by left; apply Hh | done | done].
Qed.

(** X23.  A tool call that fails has left the file as it found it,
    unless the graph had loaded and the failure is the error that
    [saveGraph] throws on the file; a call of a read tool never changes
    the file. *)
Theorem callTool_settled (name : string) (args : option (list (string * JSON.json))) :
  settled (callTool name args) /\
  (name ∈ ["read_graph"; "search_nodes"; "open_nodes"] -> reading (callTool name args)).
Proof.
  destruct args as [args|];
    [| split; [by intros s f s' [= <- <-] | by intros _ s]].
  assert (name ∈ ["read_graph"; "search_nodes"; "open_nodes"] ->
          reading (callTool name (Some args))) as Hread.
  { intros Hname.
    repeat (apply elem_of_cons in Hname as [->|Hname]);
      [.. | by apply elem_of_nil in Hname];
      unfold callTool; cbn [String.eqb Ascii.eqb Bool.eqb].
    - apply reading_read_graph.
    - apply reading_tool. intros x s. apply query_store.
    - apply reading_tool. intros x s. apply query_store. }
  split; [| exact Hread].
  destruct (decide (name ∈ toolNames)) as [Hname|Hname].
  - unfold toolNames in Hname.
    repeat (apply elem_of_cons in Hname as [->|Hname]);
      [.. | by apply elem_of_nil in Hname].
    + apply settled_tool, writesLast_createEntities.
    + apply settled_tool, writesLast_createRelations.
    + apply settled_tool, writesLast_addObservations.
    + apply settled_tool, writesLast_deleteEntities.
    + apply settled_tool, writesLast_deleteObservations.
    + apply settled_tool, writesLast_deleteRelations.
    + apply reading_settled, Hread. set_solver.
    + apply reading_settled, Hread. set_solver.
    + apply reading_settled, Hread. set_solver.
  - intros s f s'. rewrite unknown_tool by done. by intros [= <- <-].
Qed.

Lemma callTool_settled_witness :
  (callTool "add_observations" (Some carol_request) acquainted).1 =
    Failed (StoreError (NotFound "Carol")) /\
  (callTool "add_observations" (Some carol_request) acquainted).2 = acquainted.
Proof.
  split; [vm_compute; reflexivity |].
  destruct (callTool "add_observations" (Some carol_request) acquainted)
    as [r s'] eqn:Hrun.
  assert (r = Failed (StoreError (NotFound "Carol"))) as ->.
  { change r with (r, s').1. rewrite <- Hrun. vm_compute. reflexivity. }
  destruct (proj1 (callTool_settled "add_observations" (Some carol_request))
              acquainted _ _ Hrun I) as [Hs|(graph & graph' & _ & Hsave)]; [exact Hs |].
  apply saveGraph_Thrown in Hsave as [_ [code Hcode]]. discriminate Hcode.
Defined.

Lemma tool_replied {A B : Type} (as_ : JSON.json -> option A) (key : string)
    (op : A -> M B) (reply : B -> CallToolResult) (args : list (string * JSON.json))
    (s s1 : store) (r : CallToolResult) :
  rethrowing (x ← argument as_ key args; result ← await (op x); mret (reply result)) s
    = (Replied r, s1) ->
  exists x result,
    JSON.get key args ≫= as_ = Some x /\
    op x s = (Returned result, s1) /\ r = reply result.
Proof.
  rewrite tool_run. destruct (JSON.get key args ≫= as_) as [x|]; [| done].
  destruct (op x s) as [[result|e] s'] eqn:Hop; [| done].
  intros [= <- <-]. eauto.
Qed.

Lemma read_tool_replied {A B : Type} (as_ : JSON.json -> option A) (key : string)
    (op : A -> M B) (reply : B -> CallToolResult) (args : list (string * JSON.json))
    (s s1 : store) (r : CallToolResult) :
  rethrowing (x ← argument as_ key args; _ ← canonical; result ← await (op x);
              mret (reply result)) s = (Replied r, s1) ->
  exists x result,
    JSON.get key args ≫= as_ = Some x /\
    op x s = (Returned result, s1) /\ r = reply result.
Proof.
  rewrite read_tool_run. destruct (JSON.get key args ≫= as_) as [x|]; [| done].
  destruct (canonical s) as [[[]|f] s0]; [| done].
  destruct (op x s) as [[result|e] s'] eqn:Hop; [| done].
  intros [= <- <-]. eauto.
Qed.

(** What fits the cast of a create tool is the array of the objects of
    the candidates. *)
Lemma exactEntities (args : list (string * JSON.json)) (candidates : list Entity) :
  JSON.get "entities" args ≫= asList exactEntity = Some candidates ->
  JSON.get "entities" args = Some (JSON.JArray (entityObject <$> candidates)).
Proof.
  destruct (JSON.get "entities" args) as [v|]; [| done]. cbn [mbind option_bind].
  intros H. f_equal. eapply asList_exact; [apply exactEntity_exact | exact H].
Qed.

Lemma exactRelations (args : list (string * JSON.json)) (candidates : list Relation) :
  JSON.get "relations" args ≫= asList exactRelation = Some candidates ->
  JSON.get "relations" args = Some (JSON.JArray (relationObject <$> candidates)).
Proof.
  destruct (JSON.get "relations" args) as [v|]; [| done]. cbn [mbind option_bind].
  intros H. f_equal. eapply asList_exact; [apply exactRelation_exact | exact H].
Qed.

(** X24.  Every reply of the handler comes from an operation that
    returned on the arguments of the request.  The reply of a create, add
    or read tool is one text item: the result of the operation as
    [JSON.stringify(result, null, 2)] writes it, which [JSON.parse] reads
    back as that result; a create tool is followed on a request whose
    objects hold the members of the interface in its order, a read tool on
    a file that [saveGraph] wrote.  The reply of a delete tool is its
    sentence. *)
Theorem callTool_replies (args : list (string * JSON.json)) (s s1 : store)
    (r : CallToolResult) :
  (callTool "create_entities" (Some args) s = (Replied r, s1) ->
   exists candidates created,
     JSON.get "entities" args = Some (JSON.JArray (entityObject <$> candidates)) /\
     createEntities candidates s = (Returned created, s1) /\
     tells (asList asEntity) r (JSON.JArray (entityObject <$> created)) created) /\
  (callTool "create_relations" (Some args) s = (Replied r, s1) ->
   exists candidates created,
     JSON.get "relations" args = Some (JSON.JArray (relationObject <$> candidates)) /\
     createRelations candidates s = (Returned created, s1) /\
     tells (asList asRelation) r (JSON.JArray (relationObject <$> created)) created) /\
  (callTool "add_observations" (Some args) s = (Replied r, s1) ->
   exists items results,
     JSON.get "observations" args ≫= asList asAddition = Some items /\
     addObservations items s = (Returned results, s1) /\
     tells (asList asAdded) r (JSON.JArray (addedObject <$> results)) results) /\
  (callTool "read_graph" (Some args) s = (Replied r, s1) ->
   exists graph,
     readGraph s = (Returned graph, s1) /\
     tells asGraph r (graphObject graph) graph) /\
  (callTool "search_nodes" (Some args) s = (Replied r, s1) ->
   exists query found,
     JSON.get "query" args ≫= asString = Some query /\
     searchNodes query s = (Returned found, s1) /\
     tells asGraph r (graphObject found) found) /\
  (callTool "open_nodes" (Some args) s = (Replied r, s1) ->
   exists names opened,
     JSON.get "names" args ≫= asList asString = Some names /\
     openNodes names s = (Returned opened, s1) /\
     tells asGraph r (graphObject opened) opened) /\
  (callTool "delete_entities" (Some args) s = (Replied r, s1) ->
   exists entityNames,
     JSON.get "entityNames" args ≫= asList asString = Some entityNames /\
     deleteEntities entityNames s = (Returned tt, s1) /\
     r = textReply "Entities deleted successfully") /\
  (callTool "delete_observations" (Some args) s = (Replied r, s1) ->
   exists deletions,
     JSON.get "deletions" args ≫= asList asDeletion = Some deletions /\
     deleteObservations deletions s = (Returned tt, s1) /\
     r = textReply "Observations deleted successfully") /\
  (callTool "delete_relations" (Some args) s = (Replied r, s1) ->
   exists doomed,
     JSON.get "relations" args ≫= asList asRelation = Some doomed /\
     deleteRelations doomed s = (Returned tt, s1) /\
     r = textReply "Relations deleted successfully").
Proof.
  split_and!; unfold callTool; cbn [String.eqb Ascii.eqb Bool.eqb].
  - intros (x & result & Hx%exactEntities & Hop & ->)%tool_replied. exists x, result.
    split_and!; [done | done |]. apply tells_pretty.
    + apply plain_all, plain_entityObject.
    + apply mapM_back, entityObject_back.
  - intros (x & result & Hx%exactRelations & Hop & ->)%tool_replied. exists x, result.
    split_and!; [done | done |]. apply tells_pretty.
    + apply plain_all, plain_relationObject.
    + apply mapM_back, relationObject_back.
  - intros (x & result & Hx & Hop & ->)%tool_replied. exists x, result.
    split_and!; [done | done |]. apply tells_pretty.
    + apply plain_all, plain_addedObject.
    + apply mapM_back, addedObject_back.
  - rewrite read_graph_run. destruct (canonical s) as [[[]|f] s0]; [| done].
    destruct (readGraph s) as [[graph|e] s'] eqn:Hop; [| done].
    intros [= <- <-]. exists graph. split; [done |].
    apply tells_pretty; [apply plain_graphObject | apply graphObject_back].
  - intros (x & result & Hx & Hop & ->)%read_tool_replied. exists x, result.
    split_and!; [done | done |].
    apply tells_pretty; [apply plain_graphObject | apply graphObject_back].
  - intros (x & result & Hx & Hop & ->)%read_tool_replied. exists x, result.
    split_and!; [done | done |].
    apply tells_pretty; [apply plain_graphObject | apply graphObject_back].
  - intros (x & [] & Hx & Hop & ->)%tool_replied. eauto.
  - intros (x & [] & Hx & Hop & ->)%tool_replied. eauto.
  - intros (x & [] & Hx & Hop & ->)%tool_replied. eauto.
Qed.

Lemma callTool_replies_witness :
  exists candidates created,
    JSON.get "entities" friends_request =
      Some (JSON.JArray (entityObject <$> candidates)) /\
    createEntities candidates alone =
      (Returned created, (callTool "create_entities" (Some friends_request) alone).2) /\
    tells (asList asEntity)
      (textReply (pretty (JSON.JArray [entityObject bob; entityObject carol])))
      (JSON.JArray (entityObject <$> created)) created.
Proof.
  apply (proj1 (callTool_replies friends_request alone _ _)).
  vm_compute. reflexivity.
Defined.
